(** * Resolution and type projection of an OpenAPI document

    A shallow embedding of [src/openapi-parser.ts] and
    [src/schema-to-types.ts]: the endpoint extractor, the operation
    namer and the schema-to-type projector, with the properties the
    specification states about them.

    Conventions of the embedding.
    - A JavaScript string is a [string]; the documents are taken to be
      ASCII text, so [toUpperCase] and [toLowerCase] act on the letters
      [a-z] and [A-Z] and leave every other character alone.
    - A JavaScript object used as a table ([Record<string, T>]) is an
      association list holding its own properties in the order in which
      [Object.entries] enumerates them; for keys that are not written as
      array indices (a path pattern begins with a slash, a property name
      is as a rule an identifier) that is the order in which the document
      declares them.
    - An optional field ([f?: T]) is an [option]; [None] is [undefined].
    - A function that can throw returns a [result]. *)

From Stdlib Require Import String Ascii List Bool PeanoNat ZArith Permutation.
From Stdlib Require Import DecimalString.
Import ListNotations.
Local Open Scope list_scope.
Local Open Scope string_scope.

(* ===================================================================== *)
(** ** Outcomes of a call *)
(* ===================================================================== *)

Module Js.

(** The exceptions the modelled code can raise. *)
Inductive error : Type :=
| TypeError (msg : string)
| RangeError (msg : string)
| MissingPointer (ref : string).

Inductive result (A : Type) : Type :=
| Ok (a : A)
| Throw (e : error).
Arguments Ok {A} a.
Arguments Throw {A} e.

Definition bind {A B} (r : result A) (k : A -> result B) : result B :=
  match r with
  | Ok a => k a
  | Throw e => Throw e
  end.

Definition returns {A} (r : result A) : Prop := exists a, r = Ok a.
Definition throws {A} (r : result A) : Prop := exists e, r = Throw e.

(** [Array.prototype.map] with a callback that may throw: the elements
    are visited from left to right and the first exception escapes. *)
Definition mapM {A B} (f : A -> result B) : list A -> result (list B) :=
  fix go (l : list A) : result (list B) :=
    match l with
    | [] => Ok []
    | x :: t => bind (f x) (fun y => bind (go t) (fun ys => Ok (y :: ys)))
    end.

End Js.
Import Js.

Declare Scope js_scope.
Notation "x <- c ;; k" := (Js.bind c (fun x => k))
  (at level 61, c at next level, right associativity) : js_scope.
Local Open Scope js_scope.

(* ===================================================================== *)
(** ** Strings *)
(* ===================================================================== *)

Module Str.

Definition slash : ascii := "/"%char.
Definition lbrace : ascii := "{"%char.
Definition rbrace : ascii := "}"%char.
Definition dash : ascii := "-"%char.
Definition underscore : ascii := "_"%char.

(** [c.toUpperCase()] and [c.toLowerCase()] on one ASCII character.  A
    character outside [a-z] (or [A-Z]) is left as it is; this is what the
    language does on ASCII text, and a statement that rests on it is
    stated for ASCII text. *)
Definition upper_char (c : ascii) : ascii :=
  let n := nat_of_ascii c in
  if ((97 <=? n) && (n <=? 122))%nat then ascii_of_nat (n - 32) else c.

Definition lower_char (c : ascii) : ascii :=
  let n := nat_of_ascii c in
  if ((65 <=? n) && (n <=? 90))%nat then ascii_of_nat (n + 32) else c.

Fixpoint map_chars (f : ascii -> ascii) (s : string) : string :=
  match s with
  | EmptyString => EmptyString
  | String c r => String (f c) (map_chars f r)
  end.

Fixpoint filter_chars (keep : ascii -> bool) (s : string) : string :=
  match s with
  | EmptyString => EmptyString
  | String c r =>
      if keep c then String c (filter_chars keep r) else filter_chars keep r
  end.

Definition toUpperCase : string -> string := map_chars upper_char.
Definition toLowerCase : string -> string := map_chars lower_char.

(** [s.charAt(0)]: the first character as a string, empty on [""]. *)
Definition charAt0 (s : string) : string :=
  match s with
  | EmptyString => EmptyString
  | String c _ => String c EmptyString
  end.

(** [s.slice(1)]. *)
Definition slice1 (s : string) : string :=
  match s with
  | EmptyString => EmptyString
  | String _ r => r
  end.

(** [s.startsWith(c)] for a one-character [c]. *)
Definition startsWith (c : ascii) (s : string) : bool :=
  match s with
  | EmptyString => false
  | String d _ => Ascii.eqb d c
  end.

(** Truthiness of a string: only [""] is falsy. *)
Definition truthy (s : string) : bool :=
  match s with
  | EmptyString => false
  | String _ _ => true
  end.

(** [s.split(sep)] for a one-character separator: never empty, and
    [""] splits into [[""]]. *)
Fixpoint split (sep : ascii) (s : string) : list string :=
  match s with
  | EmptyString => [EmptyString]
  | String c r =>
      if Ascii.eqb c sep then EmptyString :: split sep r
      else match split sep r with
           | [] => [String c EmptyString]
           | h :: t => String c h :: t
           end
  end.

(** [l.join(sep)]. *)
Definition join (sep : string) (l : list string) : string :=
  String.concat sep l.

(** ["x".repeat(n)]. *)
Fixpoint repeat (s : string) (n : nat) : string :=
  match n with
  | O => EmptyString
  | S m => s ++ repeat s m
  end.

(** The line feed of a template literal. *)
Definition nl : string := String (ascii_of_nat 10) EmptyString.

End Str.

(* ===================================================================== *)
(** ** The document model ([types.ts]) *)
(* ===================================================================== *)

(** A table with string keys, in enumeration order. *)
Definition Table (T : Type) : Type := list (string * T).

Fixpoint get {T} (key : string) (r : Table T) : option T :=
  match r with
  | [] => None
  | (k, v) :: rest => if String.eqb k key then Some v else get key rest
  end.

Definition keys {T} (r : Table T) : list string := map fst r.
Definition values {T} (r : Table T) : list T := map snd r.

(** [r[key] = v]: the value of an existing key is replaced in place, a
    new key is added at the end. *)
Fixpoint set {T} (key : string) (v : T) (r : Table T) : Table T :=
  match r with
  | [] => [(key, v)]
  | (k, w) :: rest =>
      if String.eqb k key then (k, v) :: rest else (k, w) :: set key v rest
  end.

(** A member of an [enum] list: the scalars a JSON document can hold.
    [ENum z] stands for an integer that a double holds exactly (at most
    [2^53] in absolute value), which a template literal prints in plain
    decimal; other numbers, arrays and objects are not represented.  The
    statements below only say how string members are printed. *)
Inductive EnumValue : Type :=
| EStr (s : string)
| ENum (z : Z)
| EBool (b : bool)
| ENull.

(** What a template literal [`${v}`] prints for [v]. *)
Definition toString (v : EnumValue) : string :=
  match v with
  | EStr s => s
  | ENum z => NilZero.string_of_int (Z.to_int z)
  | EBool true => "true"
  | EBool false => "false"
  | ENull => "null"
  end.

(** [additionalProperties?: boolean | Schema | { $ref: string }]. *)
Inductive AdditionalProperties (S : Type) : Type :=
| APBool (b : bool)
| APSchema (s : S).
Arguments APBool {S} b.
Arguments APSchema {S} s.

(** The fields of [interface Schema], over the type [S] of its
    sub-schemas. *)
Record SchemaFields (S : Type) : Type := mkSchema {
  type : option string;
  format : option string;
  enum : option (list EnumValue);
  items : option S;
  properties : option (Table S);
  required : option (list string);
  additionalProperties : option (AdditionalProperties S);
  allOf : option (list S);
  oneOf : option (list S);
  anyOf : option (list S)
}.
Arguments mkSchema {S}.
Arguments type {S}.
Arguments format {S}.
Arguments enum {S}.
Arguments items {S}.
Arguments properties {S}.
Arguments required {S}.
Arguments additionalProperties {S}.
Arguments allOf {S}.
Arguments oneOf {S}.
Arguments anyOf {S}.

(** [Schema | { $ref: string }].  An object that has a [$ref] key is a
    [SRef] whatever else it holds: [schemaToType] tests [isRef] first
    and then reads nothing but [$ref]. *)
#[warnings="-register-all"]
Inductive Schema : Type :=
| SRef (ref : string)
| SNode (fields : SchemaFields Schema).

(** [{type: t}]. *)
Definition typed (t : string) : SchemaFields Schema :=
  mkSchema (Some t) None None None None None None None None None.

(* ===================================================================== *)
(** ** [schema-to-types.ts]: the projector *)
(* ===================================================================== *)

(** What a call site hands to [schemaToType]: its parameter is declared
    [Schema | { $ref: string } | undefined], and the cast
    [schema.additionalProperties as Schema] also lets a boolean in. *)
Inductive Arg : Type :=
| Undefined
| Boolean (b : bool)
| Object (s : Schema).

(** [!v]. *)
Definition falsy (v : Arg) : bool :=
  match v with
  | Undefined => true
  | Boolean b => negb b
  | Object _ => false
  end.

(** [isRef]: [schema !== undefined && '$ref' in schema].  The operator
    [in] raises a [TypeError] when its right operand is not an object. *)
Definition isRef (v : Arg) : result bool :=
  match v with
  | Undefined => Ok false
  | Boolean b =>
      Throw (TypeError
        ("Cannot use 'in' operator to search for '$ref' in "
           ++ (if b then "true" else "false")))
  | Object (SRef _) => Ok true
  | Object (SNode _) => Ok false
  end.

(** [getRefTypeName]: the last [/]-separated part of the reference. *)
Definition getRefTypeName (ref : string) : string :=
  last (Str.split Str.slash ref) EmptyString.

(** The cases of [switch (schema.type)]. *)
Inductive TypeCase : Type :=
| CaseString | CaseNumber | CaseInteger | CaseBoolean | CaseArray | CaseObject
| CaseDefault.

Definition switchType (t : option string) : TypeCase :=
  match t with
  | None => CaseDefault
  | Some t =>
      if String.eqb t "string" then CaseString
      else if String.eqb t "number" then CaseNumber
      else if String.eqb t "integer" then CaseInteger
      else if String.eqb t "boolean" then CaseBoolean
      else if String.eqb t "array" then CaseArray
      else if String.eqb t "object" then CaseObject
      else CaseDefault
  end.

(** [o === lit] for an optional string. *)
Definition equals (o : option string) (lit : string) : bool :=
  match o with
  | Some s => String.eqb s lit
  | None => false
  end.

Definition quoted (v : EnumValue) : string := "'" ++ toString v ++ "'".

(** One line of an inline object type. *)
Definition propLine (indentStr key : string) (isRequired : bool)
    (propType : string) : string :=
  indentStr ++ "  " ++ key ++ (if isRequired then "" else "?") ++ ": "
    ++ propType ++ ";".

Definition includes (l : list string) (key : string) : bool :=
  existsb (String.eqb key) l.

(** A recursive call [schemaToType(a, i)] as seen from the body of
    [schemaToType]: an argument that is not an object is settled by the
    first lines of the function, an object goes to [self]. *)
Definition recur (self : Schema -> nat -> result string)
    (a : Arg) (i : nat) : result string :=
  if falsy a then Ok "any"
  else
    r <- isRef a ;;
    match a with
    | Object s => self s i
    | _ => Ok "any"
    end.

(** [schemaToType], one unfolding: [self] stands for the function itself
    on the sub-schemas of an object. *)
Definition schemaToTypeStep (self : Schema -> nat -> result string)
    (v : Arg) (indent : nat) : result string :=
  if falsy v then Ok "any"
  else
    (* [isRef] is run for the exception it may raise; when it returns, it
       returns [true] on a [SRef] and [false] on a [SNode] *)
    r <- isRef v ;;
    match v with
    | Undefined | Boolean _ => Ok "any"
    | Object (SRef ref) => Ok (getRefTypeName ref)
    | Object (SNode schema) =>
        let call := recur self in
        let indentStr := Str.repeat "  " indent in
        match switchType schema.(type) with
        | CaseString =>
            match schema.(enum) with
            | Some vs => Ok (Str.join " | " (map quoted vs))
            | None =>
                if equals schema.(format) "date-time" then Ok "string"
                else Ok "string"
            end
        | CaseNumber | CaseInteger =>
            if equals schema.(type) "integer" then Ok "number" else Ok "number"
        | CaseBoolean => Ok "boolean"
        | CaseArray =>
            match schema.(items) with
            | Some it =>
                itemType <- call (Object it) indent ;;
                Ok ("Array<" ++ itemType ++ ">")
            | None => Ok "any[]"
            end
        | CaseObject =>
            match schema.(properties) with
            | None =>
                let openMap (additional : Arg) : result string :=
                  valueType <- call additional indent ;;
                  Ok ("Record<string, " ++ valueType ++ ">") in
                match schema.(additionalProperties) with
                | Some (APBool false) => Ok "Record<string, never>"
                | Some (APBool true) => openMap (Boolean true)
                | Some (APSchema s) => openMap (Object s)
                | None => Ok "Record<string, any>"
                end
            | Some props =>
                let required :=
                  match schema.(required) with Some l => l | None => [] end in
                lines <- mapM (fun kv : string * Schema =>
                                 let isRequired := includes required (fst kv) in
                                 propType <- call (Object (snd kv)) (indent + 1) ;;
                                 Ok (propLine indentStr (fst kv) isRequired propType))
                              props ;;
                Ok ("{" ++ Str.nl ++ Str.join Str.nl lines ++ Str.nl
                        ++ indentStr ++ "}")
            end
        | CaseDefault =>
            match schema.(allOf) with
            | Some alts =>
                types <- mapM (fun s => call (Object s) (indent + 1)) alts ;;
                Ok (Str.join " & " types)
            | None =>
                let union (alts : list Schema) : result string :=
                  types <- mapM (fun s => call (Object s) (indent + 1)) alts ;;
                  Ok ("(" ++ Str.join " | " types ++ ")") in
                match schema.(oneOf), schema.(anyOf) with
                | Some alts, _ => union alts
                | None, Some alts => union alts
                | None, None => Ok "any"
                end
            end
        end
    end.

Fixpoint schemaToTypeObj (s : Schema) (indent : nat) {struct s}
  : result string :=
  schemaToTypeStep schemaToTypeObj (Object s) indent.

(** [schemaToType(schema, indent)]. *)
Definition schemaToType (v : Arg) (indent : nat) : result string :=
  schemaToTypeStep schemaToTypeObj v indent.

(* ===================================================================== *)
(** ** The rest of the document model *)
(* ===================================================================== *)

(** [T | { $ref: string }] for request bodies and responses. *)
Inductive OrRef (T : Type) : Type :=
| Ref (ref : string)
| Inline (t : T).
Arguments Ref {T} ref.
Arguments Inline {T} t.

Module Param.
Record t : Type := make {
  name : string;
  in_ : string;
  description : option string;
  required : option bool;
  schema : option Schema
}.
End Param.

(** One entry of a [content] table. *)
Module Media.
Record t : Type := make {
  schema : option Schema
}.
End Media.

(** The [content] of a body or response; an entry may be [undefined]. *)
Definition Content : Type := Table (option Media.t).

Module RequestBody.
Record t : Type := make {
  description : option string;
  required : option bool;
  content : option Content
}.
End RequestBody.

Module Response.
Record t : Type := make {
  description : option string;
  content : option Content
}.
End Response.

Module Operation.
Record t : Type := make {
  operationId : option string;
  summary : option string;
  description : option string;
  parameters : option (list Param.t);
  requestBody : option (OrRef RequestBody.t);
  responses : Table (OrRef Response.t);
  tags : option (list string)
}.
End Operation.

(** A path item: the operations it declares, keyed by the property name
    ([get], [post], ...) and kept in the order of declaration, and the
    parameters shared by all of them. *)
Module PathItem.
Record t : Type := make {
  operations : Table Operation.t;
  parameters : option (list Param.t)
}.
End PathItem.

Module OpenAPISpec.
Record t : Type := make {
  paths : Table PathItem.t;
  schemas : Table Schema            (* [components.schemas] *)
}.
End OpenAPISpec.

Module EndpointInfo.
Record t : Type := make {
  path : string;
  method : string;
  operationId : string;
  summary : option string;
  description : option string;
  pathParams : list Param.t;
  queryParams : list Param.t;
  requestBody : option (OrRef RequestBody.t);
  responses : Table (OrRef Response.t);
  tags : option (list string)
}.
End EndpointInfo.

(* ===================================================================== *)
(** ** [openapi-parser.ts] *)
(* ===================================================================== *)

(** [p.replace(/[{}]/g, '')]. *)
Definition stripBraces : string -> string :=
  Str.filter_chars
    (fun c => negb (Ascii.eqb c Str.lbrace || Ascii.eqb c Str.rbrace)).

(** [p.replace(/-/g, '_')]. *)
Definition dashesToUnderscores : string -> string :=
  Str.map_chars (fun c => if Ascii.eqb c Str.dash then Str.underscore else c).

(** [p.charAt(0).toUpperCase() + p.slice(1)]. *)
Definition capitalize (p : string) : string :=
  Str.toUpperCase (Str.charAt0 p) ++ Str.slice1 p.

(** [generateOperationId]. *)
Definition generateOperationId (path method : string) : string :=
  let pathParts :=
    map capitalize
      (map (fun p => dashesToUnderscores (stripBraces p))
         (filter (fun p => Str.truthy p && negb (Str.startsWith Str.lbrace p))
            (Str.split Str.slash path))) in
  let methodLower := Str.toLowerCase method in
  if Nat.eqb (length pathParts) 0 then methodLower ++ "Root"
  else methodLower ++ Str.join "" pathParts.

(** [a || b] on an optional string: [undefined] and [""] are falsy. *)
Definition orElse (a : option string) (b : string) : string :=
  match a with
  | Some s => if Str.truthy s then s else b
  | None => b
  end.

(** [l || []]. *)
Definition orEmpty {A} (l : option (list A)) : list A :=
  match l with
  | Some l => l
  | None => []
  end.

Definition methods : list string := ["get"; "post"; "put"; "delete"; "patch"].

(** The body of the inner loop of [extractEndpoints]: one verb of one
    path item, [endpoints] being the array built so far. *)
Definition visitMethod (pathPattern : string) (pathItem : PathItem.t)
    (endpoints : list EndpointInfo.t) (method : string)
  : list EndpointInfo.t :=
  match get method pathItem.(PathItem.operations) with
  | None => endpoints                                     (* continue *)
  | Some operation =>
      let operationId :=
        orElse operation.(Operation.operationId)
               (generateOperationId pathPattern (Str.toUpperCase method)) in
      let allParams :=
        (orEmpty pathItem.(PathItem.parameters)
           ++ orEmpty operation.(Operation.parameters))%list in
      let pathParams :=
        filter (fun p => String.eqb p.(Param.in_) "path") allParams in
      let queryParams :=
        filter (fun p => String.eqb p.(Param.in_) "query") allParams in
      let requestBody := operation.(Operation.requestBody) in
      let responses :=
        fold_left (fun acc kv => set (fst kv) (snd kv) acc)
                  operation.(Operation.responses) [] in
      (endpoints ++
         [EndpointInfo.make pathPattern (Str.toUpperCase method) operationId
            operation.(Operation.summary) operation.(Operation.description)
            pathParams queryParams requestBody responses
            operation.(Operation.tags)])%list                   (* push *)
  end.

(** The body of the outer loop: one entry of the path table. *)
Definition visitPath (endpoints : list EndpointInfo.t)
    (entry : string * PathItem.t) : list EndpointInfo.t :=
  fold_left (visitMethod (fst entry) (snd entry)) methods endpoints.

(** [extractEndpoints]. *)
Definition extractEndpoints (spec : OpenAPISpec.t) : list EndpointInfo.t :=
  fold_left visitPath spec.(OpenAPISpec.paths) [].

(** [getSchemaFromContent]. *)
Definition getSchemaFromContent (content : option Content) : option Schema :=
  match content with
  | None => None
  | Some content =>
      let jsonContent :=
        match get "application/json" content with
        | Some item => item
        | None => None
        end in
      match jsonContent with
      | Some {| Media.schema := Some schema |} => Some schema
      | _ =>
          match find (fun item : option Media.t =>
                        match item with Some _ => true | None => false end)
                     (values content) with
          | Some (Some firstContent) => firstContent.(Media.schema)
          | _ => None
          end
      end
  end.

(** [generateResponseType]; [response] is declared [any], and holds a
    response, a reference or [undefined].  A reference has no [content]
    property. *)
Definition generateResponseType (response : option (OrRef Response.t))
    (endpointName statusCode : string) : result string :=
  match response with
  | None => Ok "any"
  | Some response =>
      let content :=
        match response with
        | Inline r => r.(Response.content)
        | Ref _ => None
        end in
      match getSchemaFromContent content with
      | None => Ok "any"
      | Some schema => schemaToType (Object schema) 0
      end
  end.

(* ===================================================================== *)
(** ** The resolved document *)
(* ===================================================================== *)

Module Resolved.

(** Modelled from the spec: the Reference Resolver behind
    [loadOpenAPISpec] ([$RefParser.dereference], a dependency that is
    not part of the sources).  Section 4.1: every node "reference to
    location L" is replaced by the resolved content at L, by
    structure-preserving inlining with memoization keyed by reference
    location, so that a schema reached twice is one and the same node
    object and a self-referential schema becomes a cyclic object.

    The memo table maps each location to the node written there.  The
    resolved object graph is read off it: a node of the graph is a node
    of the table, and where the document has [SRef L] the graph has an
    edge to the node of [L] itself.  The locations are those of the
    schema components, [#/components/schemas/<name>]. *)
Definition Memo : Type := Table Schema.

Definition location (name : string) : string :=
  "#/components/schemas/" ++ name.

Definition memoOf (spec : OpenAPISpec.t) : Memo :=
  map (fun kv => (location (fst kv), snd kv)) spec.(OpenAPISpec.schemas).

(** Modelled from the spec: the object the resolver leaves where the
    document has [s]; a chain of references is followed to the node at
    its end, and a reference to nothing resolves to nothing. *)
Fixpoint follow (hops : nat) (memo : Memo) (s : Schema)
  : option (SchemaFields Schema) :=
  match s with
  | SNode node => Some node
  | SRef ref =>
      match hops with
      | O => None
      | S hops' =>
          match get ref memo with
          | Some target => follow hops' memo target
          | None => None
          end
      end
  end.

Definition resolve (memo : Memo) (s : Schema) : option (SchemaFields Schema) :=
  follow (S (length memo)) memo s.

(** The references written in a schema. *)
Fixpoint refsOf (s : Schema) : list string :=
  match s with
  | SRef ref => [ref]
  | SNode node =>
      (match node.(items) with Some it => refsOf it | None => [] end)
      ++ (match node.(properties) with
          | Some props => flat_map (fun kv => refsOf (snd kv)) props
          | None => []
          end)
      ++ (match node.(additionalProperties) with
          | Some (APSchema a) => refsOf a
          | _ => []
          end)
      ++ (match node.(allOf) with Some l => flat_map refsOf l | None => [] end)
      ++ (match node.(oneOf) with Some l => flat_map refsOf l | None => [] end)
      ++ (match node.(anyOf) with Some l => flat_map refsOf l | None => [] end)
  end%list.

(** Modelled from the spec: resolution of the schema components.  "A
    reference to a nonexistent location is a hard error that aborts the
    whole load"; otherwise the load returns, whatever cycles the
    schemas form. *)
Definition dereference (spec : OpenAPISpec.t) : result Memo :=
  let memo := memoOf spec in
  match find (fun ref =>
                match resolve memo (SRef ref) with
                | Some _ => false
                | None => true
                end)
             (flat_map refsOf (values memo)) with
  | Some ref => Throw (MissingPointer ref)
  | None => Ok memo
  end.

(** [schemaToType] on a schema of the resolved document.  The object in
    the place of [s] is [resolve memo s]; it has no [$ref] key, and its
    sub-schemas are resolved in turn when the recursion reaches them.
    The recursion is not bounded by the data any more: [stack] is the
    number of nested calls the engine allows before it raises
    [RangeError]. *)
Fixpoint schemaToType (stack : nat) (memo : Memo) (s : Schema)
    (indent : nat) : result string :=
  match stack with
  | O => Throw (RangeError "Maximum call stack size exceeded")
  | S stack' =>
      match resolve memo s with
      | Some node =>
          schemaToTypeStep (schemaToType stack' memo)
                           (Object (SNode node)) indent
      | None => Throw (MissingPointer "")
      end
  end.

End Resolved.

(* ===================================================================== *)
(** ** The Operation Namer as the specification words it *)
(* ===================================================================== *)

Module NamerSpec.

Definition isBrace (c : ascii) : bool :=
  Ascii.eqb c Str.lbrace || Ascii.eqb c Str.rbrace.

Definition isSeparator (c : ascii) : bool :=
  Ascii.eqb c Str.dash || Ascii.eqb c Str.underscore.

(** [s] is a name followed by the closing brace. *)
Fixpoint closesPlaceholder (s : string) : bool :=
  match s with
  | EmptyString => false
  | String c EmptyString => Ascii.eqb c Str.rbrace
  | String c r => negb (isBrace c) && closesPlaceholder r
  end.

(** "A segment that is itself only a placeholder ([{...}]) with no
    literal prefix". *)
Definition onlyPlaceholder (seg : string) : bool :=
  match seg with
  | EmptyString => false
  | String c r => Ascii.eqb c Str.lbrace && closesPlaceholder r
  end.

(** The dash-or-underscore-separated tokens of a segment. *)
Fixpoint tokens (s : string) : list string :=
  match s with
  | EmptyString => [EmptyString]
  | String c r =>
      if isSeparator c then EmptyString :: tokens r
      else match tokens r with
           | [] => [String c EmptyString]
           | h :: t => String c h :: t
           end
  end.

(** "Uppercase the first letter" of a token or segment; the rest is left
    as it is.  Upper case is that of the language ([toUpperCase]). *)
Definition upperFirst (s : string) : string :=
  match s with
  | EmptyString => EmptyString
  | String c r => String (Str.upper_char c) r
  end.

(** "Strip placeholder braces": every brace goes. *)
Fixpoint withoutBraces (s : string) : string :=
  match s with
  | EmptyString => EmptyString
  | String c r =>
      if isBrace c then withoutBraces r else String c (withoutBraces r)
  end.

(** "Strip placeholder braces and convert internal word-separator
    characters to a capitalized-boundary form (each
    dash-or-underscore-separated token's first letter uppercased,
    separators removed)". *)
Definition camel (seg : string) : string :=
  String.concat "" (map upperFirst (tokens (withoutBraces seg))).

Definition survives (seg : string) : bool :=
  Str.truthy seg && negb (onlyPlaceholder seg).

(** The reference definition of the claim. *)
Definition operationId (pathPattern verb : string) : string :=
  match filter survives (Str.split Str.slash pathPattern) with
  | [] => Str.toLowerCase verb ++ "Root"
  | segs => Str.toLowerCase verb ++ String.concat "" (map camel segs)
  end.

(** The definition as amended.  A segment is dropped when it is empty or
    begins with an opening brace. *)
Definition droppedSegment (seg : string) : bool :=
  match seg with
  | EmptyString => true
  | String c _ => Ascii.eqb c Str.lbrace
  end.

(** "Replace each dash by an underscore". *)
Fixpoint underscored (s : string) : string :=
  match s with
  | EmptyString => EmptyString
  | String c r =>
      String (if Ascii.eqb c Str.dash then Str.underscore else c)
             (underscored r)
  end.

(** A surviving segment has all its braces removed, each dash replaced
    by an underscore, and its first character uppercased. *)
Definition amendedSegment (seg : string) : string :=
  upperFirst (underscored (withoutBraces seg)).

Fixpoint parts (segs : list string) : list string :=
  match segs with
  | [] => []
  | seg :: rest =>
      if droppedSegment seg then parts rest
      else amendedSegment seg :: parts rest
  end.

Definition amendedOperationId (pathPattern verb : string) : string :=
  match parts (Str.split Str.slash pathPattern) with
  | [] => Str.toLowerCase verb ++ "Root"
  | ps => Str.toLowerCase verb ++ String.concat "" ps
  end.

End NamerSpec.

(** The path parts of [generateOperationId], taken segment by segment:
    its filter and its two maps in one pass. *)
Fixpoint keptParts (segs : list string) : list string :=
  match segs with
  | [] => []
  | EmptyString :: rest => keptParts rest
  | String c r as seg :: rest =>
      if Ascii.eqb c Str.lbrace then keptParts rest
      else capitalize (dashesToUnderscores (stripBraces seg)) :: keptParts rest
  end.

(* ===================================================================== *)
(** ** Sample documents and the predicates of the statements *)
(* ===================================================================== *)

Module Sample.

Definition stringSchema : Schema := SNode (typed "string").
Definition integerSchema : Schema := SNode (typed "integer").

(** [{type: object, properties: {name: {type: string},
      age: {type: integer}}, required: [name]}]. *)
Definition person : SchemaFields Schema :=
  mkSchema (Some "object") None None None
    (Some [("name", stringSchema); ("age", integerSchema)])
    (Some ["name"]) None None None None.

(** [{oneOf: [{type: string}, {type: integer}]}]. *)
Definition stringOrInteger : SchemaFields Schema :=
  mkSchema None None None None None None None None
    (Some [stringSchema; integerSchema]) None.

(** [{type: object, additionalProperties: true}]. *)
Definition openObject : SchemaFields Schema :=
  mkSchema (Some "object") None None None None None (Some (APBool true))
    None None None.

(** [{type: object, allOf: [{type: string}]}]. *)
Definition typedComposite : SchemaFields Schema :=
  mkSchema (Some "object") None None None None None None
    (Some [stringSchema]) None None.

(** [{type: integer, enum: [1, 2]}]. *)
Definition integerEnum : SchemaFields Schema :=
  mkSchema (Some "integer") None (Some [ENum 1; ENum 2]) None None None None
    None None None.

(** The component [Node] of the specification's scenario. *)
Definition nodeRef : Schema := SRef "#/components/schemas/Node".

Definition children : SchemaFields Schema :=
  mkSchema (Some "array") None None (Some nodeRef) None None None None None
    None.

Definition node : SchemaFields Schema :=
  mkSchema (Some "object") None None None (Some [("children", SNode children)])
    None None None None None.

Definition nodeDocument : OpenAPISpec.t :=
  OpenAPISpec.make [] [("Node", SNode node)].

(** A [GET] on [/users/{id}] that declares no [operationId]. *)
Definition bareOperation : Operation.t :=
  Operation.make None None None None None [] None.

Definition usersDocument : OpenAPISpec.t :=
  OpenAPISpec.make
    [("/users/{id}",
      PathItem.make [("get", bareOperation)] None)]
    [].

(** Verbs declared in reverse order, between a path with no operation
    and a path with one. *)
Definition named (id : string) : Operation.t :=
  Operation.make (Some id) None None None None [] None.

Definition forward : PathItem.t :=
  PathItem.make
    [("get", named "g"); ("post", named "p"); ("put", named "u");
     ("delete", named "d"); ("patch", named "a")] None.

Definition backward : PathItem.t :=
  PathItem.make
    [("patch", named "a"); ("delete", named "d"); ("put", named "u");
     ("post", named "p"); ("get", named "g")] None.

Definition reversedDocument : OpenAPISpec.t :=
  OpenAPISpec.make
    [("/empty", PathItem.make [] None); ("/pets", backward);
     ("/health", PathItem.make [("get", bareOperation)] None)] [].

(** Shared and own parameters of all four locations. *)
Definition param (name location : string) : Param.t :=
  Param.make name location None None None.

Definition paramsDocument : OpenAPISpec.t :=
  OpenAPISpec.make
    [("/pets/{id}",
      PathItem.make
        [("get",
          Operation.make None None None
            (Some [param "limit" "query"; param "session" "cookie";
                   param "id" "path"])
            None [] None)]
        (Some [param "tenant" "path"; param "trace" "header";
               param "page" "query"]))]
    [].

(** [{type: object, properties: {name: {type: string},
      meta: {type: object, additionalProperties: true}}}]. *)
Definition nestedOpen : SchemaFields Schema :=
  mkSchema (Some "object") None None None
    (Some [("name", stringSchema); ("meta", SNode openObject)])
    None None None None None.

(** [{type: string, enum: ["a", "b"]}]. *)
Definition stringEnum : SchemaFields Schema :=
  mkSchema (Some "string") None (Some [EStr "a"; EStr "b"]) None None None None
    None None None.

(** A [404] response with no content. *)
Definition notFound : Response.t :=
  Response.make (Some "Not found") None.

End Sample.

(** The updates of single fields used in the statements. *)
Definition withEnum (e : option (list EnumValue)) (n : SchemaFields Schema)
  : SchemaFields Schema :=
  mkSchema n.(type) n.(format) e n.(items) n.(properties) n.(required)
    n.(additionalProperties) n.(allOf) n.(oneOf) n.(anyOf).

(** No [additionalProperties: true] anywhere in the schema. *)
Fixpoint closed (s : Schema) : bool :=
  match s with
  | SRef _ => true
  | SNode n =>
      (match n.(items) with Some it => closed it | None => true end)
      && (match n.(properties) with
          | Some props => forallb (fun kv => closed (snd kv)) props
          | None => true
          end)
      && (match n.(additionalProperties) with
          | Some (APBool b) => negb b
          | Some (APSchema a) => closed a
          | None => true
          end)
      && (match n.(allOf) with Some l => forallb closed l | None => true end)
      && (match n.(oneOf) with Some l => forallb closed l | None => true end)
      && (match n.(anyOf) with Some l => forallb closed l | None => true end)
  end.

(** A string without dash or underscore. *)
Fixpoint noSeparator (s : string) : bool :=
  match s with
  | EmptyString => true
  | String c r => negb (NamerSpec.isSeparator c) && noSeparator r
  end.

(** A segment that opens with a brace is a placeholder and nothing
    else. *)
Definition wholePlaceholder (seg : string) : Prop :=
  Str.startsWith Str.lbrace seg = true -> NamerSpec.onlyPlaceholder seg = true.

(** The schemas directly below a node. *)
Definition subschemas (n : SchemaFields Schema) : list Schema :=
  ((match n.(items) with Some it => [it] | None => [] end)
   ++ (match n.(properties) with Some props => values props | None => [] end)
   ++ (match n.(additionalProperties) with
       | Some (APSchema a) => [a]
       | _ => []
       end)
   ++ orEmpty n.(allOf) ++ orEmpty n.(oneOf) ++ orEmpty n.(anyOf))%list.

(** [tree k s]: [s] is written without any reference and nests at most
    [k] levels deep; resolution leaves such a schema as it is. *)
Inductive tree : nat -> Schema -> Prop :=
| tree_node k n :
    (forall c, In c (subschemas n) -> tree k c) -> tree (S k) (SNode n).

(** A field of an inline object type, and the type as printed. *)
Record Field : Type := mkField {
  fieldName : string;
  optional : bool;
  fieldType : string
}.

Definition fieldLine (indent : nat) (f : Field) : string :=
  Str.repeat "  " indent ++ "  " ++ f.(fieldName)
    ++ (if f.(optional) then "?" else "") ++ ": " ++ f.(fieldType) ++ ";".

Definition recordType (indent : nat) (fields : list Field) : string :=
  "{" ++ Str.nl ++ Str.join Str.nl (map (fieldLine indent) fields) ++ Str.nl
      ++ Str.repeat "  " indent ++ "}".

(** The fields of the record an object schema projects to: one per
    property, in the order of [props], optional unless listed in [req]. *)
Definition fieldsOf (req : list string) (props : Table Schema)
    (types : list string) : list Field :=
  map (fun kvt => mkField (fst (fst kvt))
                          (negb (includes req (fst (fst kvt))))
                          (snd kvt))
      (combine props types).

(** The values of [type] that [schemaToType] has a case for. *)
Definition recognized : list string :=
  ["string"; "number"; "integer"; "boolean"; "array"; "object"].

Definition unrecognized (t : option string) : Prop :=
  match t with
  | None => True
  | Some t => ~ In t recognized
  end.

(** The node [n] with other composite keys. *)
Definition withComposites (al on an : option (list Schema))
    (n : SchemaFields Schema) : SchemaFields Schema :=
  mkSchema n.(type) n.(format) n.(enum) n.(items) n.(properties) n.(required)
    n.(additionalProperties) al on an.

(** The order of [Object.entries].  A property name that is an array
    index (a decimal numeral without leading zero, at most [2^32 - 2])
    is enumerated before all other names, in ascending numeric order;
    the other names follow in the order in which they were written. *)
Definition digit (c : ascii) : option N :=
  let n := N_of_ascii c in
  if ((48 <=? n) && (n <=? 57))%N then Some (n - 48)%N else None.

Fixpoint decimal (acc : N) (s : string) : option N :=
  match s with
  | EmptyString => Some acc
  | String c r =>
      match digit c with
      | Some d => decimal (10 * acc + d)%N r
      | None => None
      end
  end.

Definition arrayIndex (key : string) : option N :=
  match key with
  | EmptyString => None
  | String c r =>
      if Ascii.eqb c "0"%char && Str.truthy r then None
      else
        match decimal 0 key with
        | Some v => if (v <=? 4294967294)%N then Some v else None
        | None => None
        end
  end.

Fixpoint insertIndexed {T} (i : N) (kv : string * T)
    (l : list (N * (string * T))) : list (N * (string * T)) :=
  match l with
  | [] => [(i, kv)]
  | (j, w) :: rest =>
      if (i <=? j)%N then (i, kv) :: (j, w) :: rest
      else (j, w) :: insertIndexed i kv rest
  end.

Definition indexed {T} (declared : list (string * T))
  : list (N * (string * T)) :=
  fold_right (fun kv acc =>
                match arrayIndex (fst kv) with
                | Some i => insertIndexed i kv acc
                | None => acc
                end)
             [] declared.

(** The table of an object whose properties, of distinct names, were
    written in the order [declared]. *)
Definition objectEntries {T} (declared : list (string * T)) : Table T :=
  (map snd (indexed declared)
     ++ filter (fun kv => match arrayIndex (fst kv) with
                          | Some _ => false
                          | None => true
                          end)
               declared)%list.

(** [types] are the projections of [schemas], one by one and in order. *)
Definition projections (indent : nat) (schemas : list Schema)
    (types : list string) : Prop :=
  Forall2 (fun s t => schemaToType (Object s) indent = Ok t) schemas types.

(** An entry of a [content] table that carries no schema. *)
Definition noSchema (item : option Media.t) : Prop :=
  match item with
  | Some media => media.(Media.schema) = None
  | None => True
  end.

(** A response entry with no usable content schema. *)
Definition noUsableSchema (response : option (OrRef Response.t)) : Prop :=
  match response with
  | None | Some (Ref _) => True
  | Some (Inline r) =>
      match r.(Response.content) with
      | None => True
      | Some content => Forall noSchema (values content)
      end
  end.

(** The descriptor [extractEndpoints] builds for one declared operation. *)
Definition declares (pathItem : PathItem.t) (method : string) : bool :=
  match get method pathItem.(PathItem.operations) with
  | Some _ => true
  | None => false
  end.

(** Two path tables that differ only in the order in which each path
    item declares its verbs. *)
Definition sameUpToVerbOrder (a b : string * PathItem.t) : Prop :=
  fst a = fst b
  /\ (snd a).(PathItem.parameters) = (snd b).(PathItem.parameters)
  /\ NoDup (keys (snd a).(PathItem.operations))
  /\ Permutation (snd a).(PathItem.operations) (snd b).(PathItem.operations).

(* ===================================================================== *)
(** ** The declarations made from an endpoint ([schema-to-types.ts]) *)
(* ===================================================================== *)

(** An optional schema as an argument of [schemaToType]. *)
Definition argOf (o : option Schema) : Arg :=
  match o with
  | Some s => Object s
  | None => Undefined
  end.

(** [s.includes(c)] for a one-character [c]. *)
Fixpoint includesChar (c : ascii) (s : string) : bool :=
  match s with
  | EmptyString => false
  | String d r => Ascii.eqb d c || includesChar c r
  end.

(** Truthiness of an optional boolean. *)
Definition isTrue (b : option bool) : bool :=
  match b with
  | Some true => true
  | _ => false
  end.

(** [generateParamsInterface]; [interfaces] is the array the two blocks
    push to. *)
Definition generateParamsInterface (pathParams queryParams : list Param.t)
    (endpointName : string) : result string :=
  let interfaces : list string := [] in
  interfaces <-
    (if Nat.ltb 0 (length pathParams) then
       pathProps <- mapM (fun p : Param.t =>
                            type <- schemaToType (argOf p.(Param.schema)) 0 ;;
                            Ok ("  " ++ p.(Param.name) ++ ": " ++ type ++ ";"))
                         pathParams ;;
       Ok (app interfaces
               ["export interface " ++ endpointName ++ "PathParams {" ++ Str.nl
                  ++ Str.join Str.nl pathProps ++ Str.nl ++ "}"])
     else Ok interfaces) ;;
  interfaces <-
    (if Nat.ltb 0 (length queryParams) then
       queryProps <- mapM (fun p : Param.t =>
                             type <- schemaToType (argOf p.(Param.schema)) 0 ;;
                             let optional :=
                               if isTrue p.(Param.required) then "" else "?" in
                             Ok ("  " ++ p.(Param.name) ++ optional ++ ": "
                                      ++ type ++ ";"))
                          queryParams ;;
       Ok (app interfaces
               ["export interface " ++ endpointName ++ "QueryParams {" ++ Str.nl
                  ++ Str.join Str.nl queryProps ++ Str.nl ++ "}"])
     else Ok interfaces) ;;
  Ok (Str.join (Str.nl ++ Str.nl) interfaces).

(** [generateRequestBodyType]; its callers hand it the [requestBody] of
    an endpoint, which is a body, a reference or [undefined].  A
    reference has no [content] property. *)
Definition generateRequestBodyType (requestBody : option (OrRef RequestBody.t))
    (endpointName : string) : result string :=
  match requestBody with
  | None => Ok ""
  | Some requestBody =>
      let content :=
        match requestBody with
        | Inline r => r.(RequestBody.content)
        | Ref _ => None
        end in
      match getSchemaFromContent content with
      | None => Ok ""
      | Some schema =>
          type <- schemaToType (Object schema) 0 ;;
          if includesChar (ascii_of_nat 10) type then
            Ok ("export interface " ++ endpointName ++ "RequestBody " ++ type
                  ++ Str.nl)
          else
            Ok ("export type " ++ endpointName ++ "RequestBody = " ++ type
                  ++ ";" ++ Str.nl)
      end
  end.

(* ===================================================================== *)
(** ** The response type of a hook ([hooks-generator.ts]) *)
(* ===================================================================== *)

(** [Object.keys(responses).find(s => s.startsWith('2')) || '200'] in
    [generateHook]. *)
Definition successStatus (responses : Table (OrRef Response.t)) : string :=
  orElse (find (Str.startsWith "2"%char) (keys responses)) "200".

(** [responseType] in [generateHook]: the type of
    [responses[successStatus]]. *)
Definition responseType (endpoint : EndpointInfo.t) : result string :=
  let responses := endpoint.(EndpointInfo.responses) in
  let functionName := endpoint.(EndpointInfo.operationId) in
  let successStatus := successStatus responses in
  let successResponse := get successStatus responses in
  generateResponseType successResponse functionName successStatus.

(* ===================================================================== *)
(** ** More predicates of the statements *)
(* ===================================================================== *)

(** The projection of [s] reaches an object without [properties] whose
    [additionalProperties] is [true]. *)
Fixpoint opens (s : Schema) : bool :=
  match s with
  | SRef _ => false
  | SNode n =>
      match switchType n.(type) with
      | CaseArray =>
          match n.(items) with Some it => opens it | None => false end
      | CaseObject =>
          match n.(properties) with
          | Some props => existsb (fun kv => opens (snd kv)) props
          | None =>
              match n.(additionalProperties) with
              | Some (APBool b) => b
              | Some (APSchema a) => opens a
              | None => false
              end
          end
      | CaseDefault =>
          match n.(allOf) with
          | Some l => existsb opens l
          | None =>
              match n.(oneOf), n.(anyOf) with
              | Some l, _ => existsb opens l
              | None, Some l => existsb opens l
              | None, None => false
              end
          end
      | _ => false
      end
  end.

(** The projection of [s] prints no inline object type. *)
Fixpoint recordFree (s : Schema) : bool :=
  match s with
  | SRef _ => true
  | SNode n =>
      match switchType n.(type) with
      | CaseArray =>
          match n.(items) with Some it => recordFree it | None => true end
      | CaseObject =>
          match n.(properties) with
          | Some _ => false
          | None =>
              match n.(additionalProperties) with
              | Some (APSchema a) => recordFree a
              | _ => true
              end
          end
      | CaseDefault =>
          match n.(allOf) with
          | Some l => forallb recordFree l
          | None =>
              match n.(oneOf), n.(anyOf) with
              | Some l, _ => forallb recordFree l
              | None, Some l => forallb recordFree l
              | None, None => true
              end
          end
      | _ => true
      end
  end.

(** The exception of [isRef] on [true]. *)
Definition inOperatorError : error :=
  TypeError "Cannot use 'in' operator to search for '$ref' in true".

(** Two parameters with the same name and the same schema. *)
Definition sameNameAndSchema (p q : Param.t) : Prop :=
  p.(Param.name) = q.(Param.name) /\ p.(Param.schema) = q.(Param.schema).

(** [schemaToType] on an engine that allows [stack] nested calls and
    raises [RangeError] at the next one. *)
Fixpoint schemaToTypeWithin (stack : nat) (s : Schema) (indent : nat)
  : result string :=
  match stack with
  | O => Throw (RangeError "Maximum call stack size exceeded")
  | S stack' => schemaToTypeStep (schemaToTypeWithin stack') (Object s) indent
  end.

(** [nests k s]: [s] is a finite tree that nests at most [k] levels
    deep, references counting as leaves. *)
Inductive nests : nat -> Schema -> Prop :=
| nests_ref k ref : nests (S k) (SRef ref)
| nests_node k n :
    (forall c, In c (subschemas n) -> nests k c) -> nests (S k) (SNode n).


(** A string of ASCII characters. *)
Fixpoint isAscii (s : string) : bool :=
  match s with
  | EmptyString => true
  | String c r => Nat.ltb (nat_of_ascii c) 128 && isAscii r
  end.

(** The schema [generateRequestBodyType] finds for a request body. *)
Definition bodySchema (requestBody : option (OrRef RequestBody.t))
  : option Schema :=
  match requestBody with
  | Some (Inline r) => getSchemaFromContent r.(RequestBody.content)
  | _ => None
  end.

(** The characters the namer removes from the path. *)
Definition pathPunctuation : list ascii :=
  [Str.slash; Str.lbrace; Str.rbrace; Str.dash].

(* ===================================================================== *)
(** ** Lemmas on the outcome monad *)
(* ===================================================================== *)

Section MapM.
Context {A B : Type}.
Variables f g : A -> result B.

Lemma mapM_ext (l : list A) :
  (forall x, In x l -> f x = g x) -> mapM f l = mapM g l.
Proof.
  induction l as [|x l IH]; intros E; simpl; [reflexivity|].
  rewrite (E x (or_introl eq_refl)).
  rewrite IH by (intros y Hy; apply E; right; exact Hy).
  reflexivity.
Qed.

Lemma mapM_Forall2 (l : list A) (ys : list B) :
  Forall2 (fun x y => f x = Ok y) l ys -> mapM f l = Ok ys.
Proof.
  induction 1 as [|x y l ys Hx _ IH]; simpl; [reflexivity|].
  rewrite Hx, IH. reflexivity.
Qed.

Lemma mapM_returns (l : list A) :
  (forall x, In x l -> returns (f x)) -> returns (mapM f l).
Proof.
  induction l as [|x l IH]; intros E; simpl.
  - eexists; reflexivity.
  - destruct (E x (or_introl eq_refl)) as [y ->].
    destruct IH as [ys ->]; [intros z Hz; apply E; right; exact Hz|].
    eexists; reflexivity.
Qed.
End MapM.

Lemma bind_returns {A B} (r : result A) (k : A -> result B) :
  returns r -> (forall a, returns (k a)) -> returns (a <- r ;; k a).
Proof.
  intros [a ->] K. apply K.
Qed.

(* ===================================================================== *)
(** ** The equations of [schemaToType] *)
(* ===================================================================== *)

(** Induction on a schema and, with it, on every schema below it. *)
Section SchemaInduction.
Variable P : Schema -> Prop.
Hypothesis ref_case : forall ref, P (SRef ref).
Hypothesis node_case :
  forall n,
    match n.(items) with Some it => P it | None => True end ->
    match n.(properties) with
    | Some props => Forall (fun kv => P (snd kv)) props
    | None => True
    end ->
    match n.(additionalProperties) with
    | Some (APSchema a) => P a
    | _ => True
    end ->
    match n.(allOf) with Some l => Forall P l | None => True end ->
    match n.(oneOf) with Some l => Forall P l | None => True end ->
    match n.(anyOf) with Some l => Forall P l | None => True end ->
    P (SNode n).

Lemma Schema_induction : forall s, P s.
Proof.
  fix IH 1. intros [ref | n]; [apply ref_case|].
  apply node_case.
  - destruct (items n) as [it|]; [apply IH | exact I].
  - destruct (properties n) as [props|]; [|exact I].
    revert props. fix IHp 1. intros [|[k s] props]; constructor;
      [apply IH | apply IHp].
  - destruct (additionalProperties n) as [[b|a]|]; try exact I. apply IH.
  - destruct (allOf n) as [l|]; [|exact I].
    revert l. fix IHl 1. intros [|s l]; constructor; [apply IH | apply IHl].
  - destruct (oneOf n) as [l|]; [|exact I].
    revert l. fix IHl 1. intros [|s l]; constructor; [apply IH | apply IHl].
  - destruct (anyOf n) as [l|]; [|exact I].
    revert l. fix IHl 1. intros [|s l]; constructor; [apply IH | apply IHl].
Qed.
End SchemaInduction.

Lemma recur_object self s i : recur self (Object s) i = self s i.
Proof. destruct s; reflexivity. Qed.

Lemma schemaToTypeObj_eq s i : schemaToTypeObj s i = schemaToType (Object s) i.
Proof. destruct s; reflexivity. Qed.

Lemma In_subschemas n c :
  n.(items) = Some c
  \/ (exists props k, n.(properties) = Some props /\ In (k, c) props)
  \/ n.(additionalProperties) = Some (APSchema c)
  \/ (exists l, (n.(allOf) = Some l \/ n.(oneOf) = Some l \/ n.(anyOf) = Some l)
                /\ In c l) ->
  In c (subschemas n).
Proof.
  unfold subschemas.
  intros [E | [(props & k & E & H) | [E | (l & [E | [E | E]] & H)]]];
    rewrite ?in_app_iff, E; simpl; auto 7.
  right; left. unfold values. apply in_map_iff. exists (k, c). auto.
Qed.

(** The step function only uses [self] on the schemas directly below the
    node it is given. *)
Lemma schemaToTypeStep_local self self' n i :
  (forall c j, In c (subschemas n) -> self c j = self' c j) ->
  schemaToTypeStep self (Object (SNode n)) i
  = schemaToTypeStep self' (Object (SNode n)) i.
Proof.
  intros E.
  assert (R : forall c j, In c (subschemas n) ->
                          recur self (Object c) j = recur self' (Object c) j).
  { intros c j H. rewrite !recur_object. apply E, H. }
  unfold schemaToTypeStep; simpl.
  destruct (switchType (type n)); try reflexivity.
  - destruct (items n) as [it|] eqn:I; [|reflexivity].
    rewrite R; [reflexivity|]. apply In_subschemas; auto.
  - destruct (properties n) as [props|] eqn:P.
    + erewrite mapM_ext; [reflexivity|]. intros [k c] H; simpl.
      rewrite R; [reflexivity|]. apply In_subschemas. right; left; eauto.
    + destruct (additionalProperties n) as [[[|]|a]|] eqn:A; try reflexivity.
      rewrite R; [reflexivity|]. apply In_subschemas; auto.
  - destruct (allOf n) as [l|] eqn:A.
    + erewrite mapM_ext; [reflexivity|]. intros c H. apply R.
      apply In_subschemas. do 3 right. eauto.
    + destruct (oneOf n) as [l|] eqn:O; [|destruct (anyOf n) as [l|] eqn:Y];
        try reflexivity;
        (erewrite mapM_ext; [reflexivity|]; intros c H; apply R;
         apply In_subschemas; do 3 right; eauto).
Qed.

Lemma schemaToTypeStep_ext self self' v i :
  (forall s j, self s j = self' s j) ->
  schemaToTypeStep self v i = schemaToTypeStep self' v i.
Proof.
  intros E. destruct v as [|b|[ref|n]]; try reflexivity.
  apply schemaToTypeStep_local. intros c j _. apply E.
Qed.

(** [schemaToType] on a node, with the recursive calls read as calls of
    [schemaToType] itself. *)
Lemma schemaToType_unfold v i :
  schemaToType v i = schemaToTypeStep (fun s j => schemaToType (Object s) j) v i.
Proof.
  unfold schemaToType at 1. apply schemaToTypeStep_ext.
  intros s j. apply schemaToTypeObj_eq.
Qed.

(* ===================================================================== *)
(** ** The projector: what it returns, and when it throws *)
(* ===================================================================== *)

Lemma includes_In l key : includes l key = true <-> In key l.
Proof.
  unfold includes. rewrite existsb_exists. split.
  - intros (x & Hx & E). apply String.eqb_eq in E. subst. exact Hx.
  - intros H. exists key. split; [exact H | apply String.eqb_refl].
Qed.

Lemma switchType_default t : unrecognized t -> switchType t = CaseDefault.
Proof.
  destruct t as [t|]; [|reflexivity]. unfold unrecognized, recognized, switchType.
  intros N.
  repeat match goal with
         | |- context [String.eqb t ?lit] =>
             destruct (String.eqb_spec t lit) as [->|_];
             [exfalso; apply N; simpl; tauto|]
         end.
  reflexivity.
Qed.

Lemma switchType_not_string t : t <> Some "string" -> switchType t <> CaseString.
Proof.
  destruct t as [t|]; [|discriminate]. unfold switchType. intros N.
  destruct (String.eqb_spec t "string") as [->|_]; [congruence|].
  repeat match goal with
         | |- context [String.eqb t ?lit] => destruct (String.eqb t lit)
         end; discriminate.
Qed.

(** The lines of an inline object type, given the types of the
    properties. *)
Lemma object_lines self i req (props : Table Schema) types :
  Forall2 (fun s t => self s (i + 1) = Ok t) (values props) types ->
  mapM (fun kv : string * Schema =>
          propType <- recur self (Object (snd kv)) (i + 1) ;;
          Ok (propLine (Str.repeat "  " i) (fst kv) (includes req (fst kv))
                propType))
       props
  = Ok (map (fieldLine i) (fieldsOf req props types)).
Proof.
  revert types. induction props as [|[k s] props IH]; intros types F;
    inversion F as [|? t ? types' Hs Hrest]; subst; simpl.
  - reflexivity.
  - rewrite recur_object. simpl in Hs. rewrite Hs. simpl.
    unfold fieldsOf in IH. rewrite (IH _ Hrest). simpl.
    unfold fieldLine, propLine; simpl.
    destruct (includes req k); reflexivity.
Qed.

Lemma fieldsOf_names req (props : Table Schema) types :
  length types = length props ->
  map fieldName (fieldsOf req props types) = keys props
  /\ map fieldType (fieldsOf req props types) = types.
Proof.
  revert types. induction props as [|[k s] props IH]; intros [|t types] L;
    try discriminate; simpl; [split; reflexivity|].
  injection L as L. destruct (IH _ L) as [E1 E2].
  unfold fieldsOf in *. rewrite E1, E2. split; reflexivity.
Qed.

Lemma fieldsOf_optional req (props : Table Schema) types :
  Forall (fun f => f.(optional) = true <-> ~ In f.(fieldName) req)
         (fieldsOf req props types).
Proof.
  unfold fieldsOf. apply Forall_forall. intros f Hf.
  apply in_map_iff in Hf. destruct Hf as ([[k s] t] & <- & _); simpl.
  rewrite negb_true_iff, <- not_true_iff_false, includes_In. tauto.
Qed.

(** Away from [additionalProperties: true] the projector returns on every
    schema, whatever its fields. *)
Lemma schemaToType_returns_closed s :
  forall i, closed s = true -> returns (schemaToType (Object s) i).
Proof.
  induction s as [ref | n Hit Hprops Hap Hall Hone Hany] using Schema_induction;
    intros i C.
  - eexists; reflexivity.
  - rewrite schemaToType_unfold. unfold schemaToTypeStep; simpl.
    simpl in C. repeat (apply andb_prop in C; destruct C as [C ?]).
    assert (L : forall l j, Forall (fun s => forall i, closed s = true ->
                                           returns (schemaToType (Object s) i)) l ->
                            forallb closed l = true ->
                            returns (mapM (fun s => recur (fun s j => schemaToType (Object s) j)
                                                          (Object s) j) l)).
    { intros l j F Cl. apply mapM_returns. intros x Hx. rewrite recur_object.
      rewrite Forall_forall in F. apply F; [exact Hx|].
      rewrite forallb_forall in Cl. apply Cl, Hx. }
    destruct (switchType (type n)).
    + destruct (enum n); [|destruct (equals (format n) "date-time")];
        eexists; reflexivity.
    + destruct (equals (type n) "integer"); eexists; reflexivity.
    + destruct (equals (type n) "integer"); eexists; reflexivity.
    + eexists; reflexivity.
    + destruct (items n) as [it|]; [|eexists; reflexivity].
      rewrite recur_object. apply bind_returns; [apply Hit, C|].
      intros; eexists; reflexivity.
    + destruct (properties n) as [props|].
      * apply bind_returns; [|intros; eexists; reflexivity].
        apply mapM_returns. intros kv Hkv. rewrite recur_object.
        apply bind_returns; [|intros; eexists; reflexivity].
        rewrite Forall_forall in Hprops. apply (Hprops kv Hkv).
        match goal with
        | Hc : forallb _ props = true |- _ =>
            rewrite forallb_forall in Hc; apply Hc, Hkv
        end.
      * destruct (additionalProperties n) as [[[|]|a]|];
          try (eexists; reflexivity); try discriminate.
        rewrite recur_object. apply bind_returns; [|intros; eexists; reflexivity].
        apply Hap. assumption.
    + destruct (allOf n) as [l|].
      * apply bind_returns; [|intros; eexists; reflexivity].
        apply L; assumption.
      * destruct (oneOf n) as [l|]; [|destruct (anyOf n) as [l|]];
          try (eexists; reflexivity);
          (apply bind_returns; [|intros; eexists; reflexivity]);
          apply L; assumption.
Qed.

(** C4, at the failing input.  An object schema without [properties] whose
    [additionalProperties] is [true] makes [schemaToType] raise a
    [TypeError] instead of returning a type expression: the flag is
    handed to the recursive call, whose [isRef] test applies [in] to a
    boolean.  The other fields of the node do not matter. *)
Theorem schemaToType_additionalProperties_true_throws
    (fmt : option string) (e : option (list EnumValue)) (it : option Schema)
    (req : option (list string)) (al on an : option (list Schema))
    (indent : nat) :
  schemaToType
    (Object (SNode (mkSchema (Some "object") fmt e it None req
                             (Some (APBool true)) al on an)))
    indent
  = Throw (TypeError "Cannot use 'in' operator to search for '$ref' in true").
Proof. reflexivity. Qed.

(** The same inside a larger schema: the exception escapes. *)
Example array_of_open_objects_throws :
  throws (schemaToType
            (Object (SNode (mkSchema (Some "array") None None
                              (Some (SNode Sample.openObject))
                              None None None None None None)))
            0).
Proof. eexists; reflexivity. Qed.

Lemma objectEntries_plain {T} (declared : list (string * T)) :
  (forall kv, In kv declared -> arrayIndex (fst kv) = None) ->
  objectEntries declared = declared.
Proof.
  intros P. unfold objectEntries.
  assert (I : indexed declared = []).
  { induction declared as [|kv declared IH]; [reflexivity|]. simpl.
    rewrite (P kv (or_introl eq_refl)). apply IH.
    intros x Hx. apply P. right. exact Hx. }
  rewrite I. simpl.
  induction declared as [|kv declared IH]; [reflexivity|]. simpl.
  rewrite (P kv (or_introl eq_refl)). f_equal. apply IH.
  - intros x Hx. apply P. right. exact Hx.
  - simpl in I. rewrite (P kv (or_introl eq_refl)) in I. exact I.
Qed.

(** C7 as stated fails.  A property whose schema reaches
    [additionalProperties: true] makes the projection of the object throw
    instead of returning a record; and the properties are listed in the
    order of [Object.entries], in which a name that is an array index
    comes before the names written ahead of it. *)
Lemma schemaToType_object_not_always_record :
  Sample.nestedOpen.(type) = Some "object"
  /\ Sample.nestedOpen.(properties)
     = Some [("name", Sample.stringSchema); ("meta", SNode Sample.openObject)]
  /\ schemaToType (Object (SNode Sample.nestedOpen)) 0
     = Throw (TypeError "Cannot use 'in' operator to search for '$ref' in true")
  /\ objectEntries [("b", Sample.stringSchema); ("1", Sample.integerSchema)]
     = [("1", Sample.integerSchema); ("b", Sample.stringSchema)]
  /\ schemaToType
       (Object (SNode (mkSchema (Some "object") None None None
                         (Some (objectEntries [("b", Sample.stringSchema);
                                               ("1", Sample.integerSchema)]))
                         None None None None None)))
       0
     = Ok ("{" ++ Str.nl ++ "  1?: number;" ++ Str.nl ++ "  b?: string;"
               ++ Str.nl ++ "}").
Proof. repeat split. Qed.

(** C7, amended.  A node of type [object]: without [properties] it
    projects to [Record<string, never>] when [additionalProperties] is
    [false], to [Record<string, T>] when it is a schema whose projection
    returns [T], and to [Record<string, any>] when it is absent too; with
    [properties] whose schemas all have a projection, it projects to a
    record with one field per property, in the order of [Object.entries],
    a field being optional exactly when its name is not in [required];
    and that order is the order of declaration when no property name is
    an array index. *)
Theorem schemaToType_object (n : SchemaFields Schema) (indent : nat) :
  n.(type) = Some "object" ->
  (n.(properties) = None -> n.(additionalProperties) = Some (APBool false) ->
   schemaToType (Object (SNode n)) indent = Ok "Record<string, never>")
  /\ (forall a t,
        n.(properties) = None -> n.(additionalProperties) = Some (APSchema a) ->
        schemaToType (Object a) indent = Ok t ->
        schemaToType (Object (SNode n)) indent
        = Ok ("Record<string, " ++ t ++ ">"))
  /\ (n.(properties) = None -> n.(additionalProperties) = None ->
      schemaToType (Object (SNode n)) indent = Ok "Record<string, any>")
  /\ (forall props types,
        n.(properties) = Some props ->
        projections (indent + 1) (values props) types ->
        exists fields,
          schemaToType (Object (SNode n)) indent = Ok (recordType indent fields)
          /\ map fieldName fields = keys props
          /\ map fieldType fields = types
          /\ Forall (fun f => f.(optional) = true
                              <-> ~ In f.(fieldName)
                                       match n.(required) with
                                       | Some names => names
                                       | None => []
                                       end)
                    fields)
  /\ (forall (declared : list (string * Schema)) types,
        (forall kv, In kv declared -> arrayIndex (fst kv) = None) ->
        n.(properties) = Some (objectEntries declared) ->
        projections (indent + 1) (map snd declared) types ->
        exists fields,
          schemaToType (Object (SNode n)) indent = Ok (recordType indent fields)
          /\ map fieldName fields = map fst declared
          /\ map fieldType fields = types).
Proof.
  intros T.
  assert (U : forall i, schemaToType (Object (SNode n)) i
                        = schemaToTypeStep (fun s j => schemaToType (Object s) j)
                                           (Object (SNode n)) i)
    by (intros; apply schemaToType_unfold).
  unfold schemaToTypeStep in U; simpl in U. rewrite T in U; simpl in U.
  split; [|split; [|split; [|split]]].
  - intros P A. rewrite U, P, A. reflexivity.
  - intros a t P A E. rewrite U, P, A, recur_object, E. reflexivity.
  - intros P A. rewrite U, P, A. reflexivity.
  - intros props types P F.
    exists (fieldsOf match n.(required) with Some names => names | None => [] end
                     props types).
    assert (L : length types = length props).
    { symmetry. unfold projections, values in F.
      apply Forall2_length in F. rewrite length_map in F. exact F. }
    split; [|split; [|split]].
    + rewrite U, P. erewrite object_lines by exact F. reflexivity.
    + apply fieldsOf_names, L.
    + apply fieldsOf_names, L.
    + apply fieldsOf_optional.
  - intros declared types D P F.
    rewrite (objectEntries_plain declared D) in P.
    exists (fieldsOf match n.(required) with Some names => names | None => [] end
                     declared types).
    assert (L : length types = length declared).
    { symmetry. unfold projections in F.
      apply Forall2_length in F. rewrite length_map in F. exact F. }
    split; [|split].
    + rewrite U, P. erewrite object_lines by exact F. reflexivity.
    + apply (fieldsOf_names _ declared types L).
    + apply (fieldsOf_names _ declared types L).
Qed.

(** C7 on the specification's scenario: [name] is a mandatory string and
    [age] an optional number, in that order. *)
Lemma schemaToType_object_witness :
  (exists fields,
     schemaToType (Object (SNode Sample.person)) 0 = Ok (recordType 0 fields)
     /\ map fieldName fields = ["name"; "age"]
     /\ map fieldType fields = ["string"; "number"]
     /\ Forall (fun f => f.(optional) = true <-> ~ In f.(fieldName) ["name"])
               fields)
  /\ schemaToType (Object (SNode Sample.person)) 0
     = Ok ("{" ++ Str.nl ++ "  name: string;" ++ Str.nl ++ "  age?: number;"
               ++ Str.nl ++ "}").
Proof.
  split; [|reflexivity].
  destruct (@schemaToType_object Sample.person 0 eq_refl) as (_ & _ & _ & H & _).
  apply (H [("name", Sample.stringSchema); ("age", Sample.integerSchema)]
           ["string"; "number"]).
  - reflexivity.
  - repeat constructor.
Defined.

Example person_projection :
  schemaToType (Object (SNode Sample.person)) 0
  = Ok ("{" ++ Str.nl ++ "  name: string;" ++ Str.nl ++ "  age?: number;"
            ++ Str.nl ++ "}").
Proof. reflexivity. Qed.

(** C8 as stated fails: a node that carries [allOf] next to a recognized
    [type] is projected by its type, and the alternatives are not read. *)
Lemma composite_keys_ignored_under_type :
  Sample.typedComposite.(allOf) = Some [Sample.stringSchema]
  /\ projections 1 [Sample.stringSchema] ["string"]
  /\ schemaToType (Object (SNode Sample.typedComposite)) 0
     = Ok "Record<string, any>"
  /\ schemaToType (Object (SNode Sample.typedComposite)) 0
     <> Ok (Str.join " & " ["string"]).
Proof.
  repeat split.
  - repeat constructor.
  - discriminate.
Qed.

Lemma switchType_recognized t :
  In t recognized -> switchType (Some t) <> CaseDefault.
Proof.
  intros [<- | [<- | [<- | [<- | [<- | [<- | []]]]]]]; discriminate.
Qed.

(** C8, amended.  On a node whose [type] is absent or none of the six
    recognized names: the projections of the [allOf] alternatives are
    joined by [&] in declared order, whether or not [oneOf] or [anyOf]
    is there too; without [allOf], the projections of the [oneOf]
    alternatives, or of the [anyOf] alternatives when there is no
    [oneOf], are joined by [|] in declared order, within parentheses.  On
    a node whose [type] is one of the six recognized names the composite
    keys are not read: the projection is the same whatever they hold. *)
Theorem schemaToType_composite (n : SchemaFields Schema) (indent : nat) :
  (unrecognized n.(type) ->
   (forall alts types,
      n.(allOf) = Some alts -> projections (indent + 1) alts types ->
      schemaToType (Object (SNode n)) indent = Ok (Str.join " & " types))
   /\ (forall alts types,
         n.(allOf) = None ->
         n.(oneOf) = Some alts \/ (n.(oneOf) = None /\ n.(anyOf) = Some alts) ->
         projections (indent + 1) alts types ->
         schemaToType (Object (SNode n)) indent
         = Ok ("(" ++ Str.join " | " types ++ ")")))
  /\ (forall t al on an,
        n.(type) = Some t -> In t recognized ->
        schemaToType (Object (SNode (withComposites al on an n))) indent
        = schemaToType (Object (SNode n)) indent).
Proof.
  split.
  - intros T. apply switchType_default in T.
    assert (U := schemaToType_unfold (Object (SNode n)) indent).
    unfold schemaToTypeStep in U; simpl in U. rewrite T in U.
    assert (M : forall alts types,
               projections (indent + 1) alts types ->
               mapM (fun s => recur (fun s j => schemaToType (Object s) j)
                                    (Object s) (indent + 1)) alts = Ok types).
    { intros alts types F. apply mapM_Forall2.
      eapply Forall2_impl; [|exact F]. intros s t E. rewrite recur_object.
      exact E. }
    split.
    + intros alts types A F. rewrite U, A, (M _ _ F). reflexivity.
    + intros alts types A [O | [O Y]] F; rewrite U, A, O.
      * rewrite (M _ _ F). reflexivity.
      * rewrite Y, (M _ _ F). reflexivity.
  - intros t al on an T R. apply switchType_recognized in R.
    unfold schemaToType, schemaToTypeStep; simpl. rewrite T in *.
    destruct (switchType (Some t)); try reflexivity. congruence.
Qed.

(** C8 on the specification's scenario, a union of string and number,
    and on an object that also carries [allOf]. *)
Lemma schemaToType_composite_witness :
  schemaToType (Object (SNode Sample.stringOrInteger)) 0
  = Ok "(string | number)"
  /\ schemaToType (Object (SNode Sample.typedComposite)) 0
     = schemaToType
         (Object (SNode (mkSchema (Some "object") None None None None None
                           None None None None)))
         0.
Proof.
  destruct (schemaToType_composite Sample.stringOrInteger 0) as [H _].
  destruct (schemaToType_composite
              (mkSchema (Some "object") None None None None None None None None
                 None) 0) as [_ K].
  split.
  - apply (proj2 (H I) [Sample.stringSchema; Sample.integerSchema]
             ["string"; "number"]).
    + reflexivity.
    + left; reflexivity.
    + repeat constructor.
  - apply (K "object" (Some [Sample.stringSchema]) None None eq_refl).
    simpl; tauto.
Defined.

(** C10.  A node of type [integer] or [number] projects to [number] and a
    node of type [boolean] to [boolean], with or without an [enum]; the
    [enum] of a node of type [string] is printed as a union of literals,
    each string member between single quotes; and the [enum] has no
    effect on the projection of a node of any other type. *)
Theorem schemaToType_enum_only_for_string (n : SchemaFields Schema)
    (indent : nat) :
  (n.(type) = Some "integer" \/ n.(type) = Some "number" ->
   schemaToType (Object (SNode n)) indent = Ok "number")
  /\ (n.(type) = Some "boolean" ->
      schemaToType (Object (SNode n)) indent = Ok "boolean")
  /\ (forall members : list string,
        n.(type) = Some "string" -> n.(enum) = Some (map EStr members) ->
        schemaToType (Object (SNode n)) indent
        = Ok (String.concat " | "
                (map (fun member => "'" ++ member ++ "'") members)))
  /\ (forall e,
        n.(type) <> Some "string" ->
        schemaToType (Object (SNode (withEnum e n))) indent
        = schemaToType (Object (SNode n)) indent).
Proof.
  split; [|split; [|split]].
  - intros [T | T]; unfold schemaToType, schemaToTypeStep; simpl;
      rewrite T; reflexivity.
  - intros T. unfold schemaToType, schemaToTypeStep; simpl.
    rewrite T; reflexivity.
  - intros members T E. unfold schemaToType, schemaToTypeStep; simpl.
    rewrite T, E; simpl. rewrite map_map. reflexivity.
  - intros e T. apply switchType_not_string in T.
    unfold schemaToType, schemaToTypeStep; simpl.
    destruct (switchType (type n)); try reflexivity. congruence.
Qed.

(** C10 on [{type: integer, enum: [1, 2]}] and on
    [{type: string, enum: ["a", "b"]}]. *)
Lemma schemaToType_enum_only_for_string_witness :
  schemaToType (Object (SNode Sample.integerEnum)) 0 = Ok "number"
  /\ schemaToType (Object (SNode (withEnum None Sample.integerEnum))) 0
     = schemaToType (Object (SNode Sample.integerEnum)) 0
  /\ schemaToType (Object (SNode Sample.stringEnum)) 0 = Ok "'a' | 'b'".
Proof.
  destruct (schemaToType_enum_only_for_string Sample.integerEnum 0)
    as (H & _ & _ & K).
  destruct (schemaToType_enum_only_for_string Sample.stringEnum 0)
    as (_ & _ & S & _).
  split; [|split].
  - apply H. left; reflexivity.
  - apply K. discriminate.
  - apply (S ["a"; "b"]); reflexivity.
Defined.

(* ===================================================================== *)
(** ** Responses without a schema *)
(* ===================================================================== *)

Lemma get_In {T} key (r : Table T) v : get key r = Some v -> In (key, v) r.
Proof.
  induction r as [|[k w] r IH]; simpl; [discriminate|].
  destruct (String.eqb_spec k key) as [->|_].
  - intros E; injection E as ->. left; reflexivity.
  - intros E; right; apply IH, E.
Qed.

Lemma get_In_values {T} key (r : Table T) v :
  get key r = Some v -> In v (values r).
Proof.
  intros E. apply get_In in E. unfold values.
  apply in_map_iff. exists (key, v). split; [reflexivity | exact E].
Qed.

Lemma getSchemaFromContent_none (content : Content) :
  Forall noSchema (values content) -> getSchemaFromContent (Some content) = None.
Proof.
  intros F. rewrite Forall_forall in F. unfold getSchemaFromContent.
  assert (J : match get "application/json" content with
              | Some item => item
              | None => None
              end = None
              \/ exists m, In (Some m) (values content)
                           /\ match get "application/json" content with
                              | Some item => item
                              | None => None
                              end = Some m).
  { destruct (get "application/json" content) as [[m|]|] eqn:G; auto.
    right. exists m. split; [eapply get_In_values, G | reflexivity]. }
  assert (K : match find (fun item : option Media.t =>
                            match item with Some _ => true | None => false end)
                         (values content) with
              | Some (Some firstContent) => firstContent.(Media.schema)
              | _ => None
              end = None).
  { destruct (find _ (values content)) as [[m|]|] eqn:Fd; try reflexivity.
    apply find_some in Fd. destruct Fd as [Hin _]. apply (F _ Hin). }
  destruct J as [-> | (m & Hin & ->)]; [exact K|].
  destruct m as [[sch|]]; [|exact K].
  specialize (F _ Hin). discriminate F.
Qed.

(** C9.  A response entry that is absent, or has no [content], or whose
    [content] entries carry no schema, is given the type [any], and
    [generateResponseType] returns. *)
Theorem generateResponseType_no_schema
    (response : option (OrRef Response.t)) (endpointName statusCode : string) :
  noUsableSchema response ->
  generateResponseType response endpointName statusCode = Ok "any".
Proof.
  destruct response as [[ref | r]|]; try reflexivity.
  unfold generateResponseType, noUsableSchema.
  destruct (Response.content r) as [content|]; [|reflexivity].
  intros F. rewrite (getSchemaFromContent_none _ F). reflexivity.
Qed.

(** C9 on the specification's scenario: status [404], no content. *)
Lemma generateResponseType_no_schema_witness :
  generateResponseType (Some (Inline Sample.notFound)) "getUsers" "404"
  = Ok "any".
Proof.
  apply generateResponseType_no_schema. exact I.
Defined.

Example content_without_schema :
  generateResponseType
    (Some (Inline (Response.make None
                     (Some [("text/plain", Some (Media.make None));
                            ("application/json", None)]))))
    "getUsers" "200"
  = Ok "any".
Proof.
  apply generateResponseType_no_schema. simpl. repeat constructor.
Qed.

(* ===================================================================== *)
(** ** The Operation Namer *)
(* ===================================================================== *)

Lemma parts_pipeline segs :
  map capitalize
    (map (fun p => dashesToUnderscores (stripBraces p))
       (filter (fun p => Str.truthy p && negb (Str.startsWith Str.lbrace p))
          segs))
  = keptParts segs.
Proof.
  induction segs as [|seg segs IH]; [reflexivity|].
  destruct seg as [|c r]; simpl; [exact IH|].
  destruct (Ascii.eqb c Str.lbrace); simpl; [exact IH|].
  rewrite IH. reflexivity.
Qed.

Lemma withoutBraces_stripBraces s : NamerSpec.withoutBraces s = stripBraces s.
Proof.
  unfold stripBraces. induction s as [|c r IH]; simpl; [reflexivity|].
  unfold NamerSpec.isBrace. rewrite IH.
  destruct (Ascii.eqb c Str.lbrace || Ascii.eqb c Str.rbrace); reflexivity.
Qed.

Lemma underscored_dashesToUnderscores s :
  NamerSpec.underscored s = dashesToUnderscores s.
Proof.
  unfold dashesToUnderscores. induction s as [|c r IH]; simpl; [reflexivity|].
  rewrite IH. reflexivity.
Qed.

Lemma upperFirst_capitalize s : NamerSpec.upperFirst s = capitalize s.
Proof. destruct s; reflexivity. Qed.

Lemma parts_keptParts segs : NamerSpec.parts segs = keptParts segs.
Proof.
  induction segs as [|seg segs IH]; [reflexivity|].
  destruct seg as [|c r]; simpl; [exact IH|].
  destruct (Ascii.eqb c Str.lbrace); [exact IH|].
  rewrite IH. unfold NamerSpec.amendedSegment.
  rewrite withoutBraces_stripBraces, underscored_dashesToUnderscores,
    upperFirst_capitalize.
  reflexivity.
Qed.

(** C2 as stated fails: the code turns a dash into an underscore and
    uppercases the first character of the segment only, where the
    reference definition uppercases every token and drops the
    separators. *)
Lemma generateOperationId_keeps_separators :
  generateOperationId "/user-profiles" "GET" = "getUser_profiles"
  /\ NamerSpec.operationId "/user-profiles" "GET" = "getUserProfiles"
  /\ generateOperationId "/user-profiles" "GET"
     <> NamerSpec.operationId "/user-profiles" "GET".
Proof.
  repeat split. discriminate.
Qed.

(** C2, amended.  [generateOperationId] is the reference definition with
    two steps changed: a segment is dropped when it is empty or begins
    with an opening brace, and a surviving segment has its braces
    removed, its dashes turned into underscores and its first character
    uppercased.  The lower-cased verb is followed by the transformed
    segments in path order, or by [Root] when no segment survives. *)
Theorem generateOperationId_amended (pathPattern verb : string) :
  generateOperationId pathPattern verb
  = NamerSpec.amendedOperationId pathPattern verb.
Proof.
  unfold generateOperationId, NamerSpec.amendedOperationId.
  rewrite parts_pipeline, parts_keptParts.
  destruct (keptParts (Str.split Str.slash pathPattern)); reflexivity.
Qed.

Example amended_reference_runs :
  NamerSpec.amendedOperationId "/user-profiles/{id}/x{a}-b" "GET"
  = "getUser_profilesXa_b"
  /\ NamerSpec.amendedOperationId "/{id}.json" "GET" = "getRoot"
  /\ NamerSpec.amendedOperationId "/my_items/}" "Post" = "postMy_items".
Proof. repeat split. Qed.

Example namer_runs :
  generateOperationId "/users/{id}" "GET" = "getUsers"
  /\ generateOperationId "/" "POST" = "postRoot"
  /\ generateOperationId "/{tenant}/{id}" "DELETE" = "deleteRoot"
  /\ generateOperationId "/v{major}/my_items" "PATCH" = "patchVmajorMy_items"
  /\ generateOperationId "/{id}.json" "GET" = "getRoot".
Proof. repeat split. Qed.

(* ===================================================================== *)
(** ** The Endpoint Extractor *)
(* ===================================================================== *)

(** What one verb of one path item adds to the array. *)
Lemma visitMethod_app p item acc m :
  visitMethod p item acc m = (acc ++ visitMethod p item [] m)%list.
Proof.
  unfold visitMethod. destruct (get m (PathItem.operations item)).
  - reflexivity.
  - rewrite app_nil_r. reflexivity.
Qed.

Lemma fold_visitMethod p item ms acc :
  fold_left (visitMethod p item) ms acc
  = (acc ++ flat_map (visitMethod p item []) ms)%list.
Proof.
  revert acc. induction ms as [|m ms IH]; intros acc; simpl.
  - rewrite app_nil_r. reflexivity.
  - rewrite IH, visitMethod_app, app_assoc. reflexivity.
Qed.

Lemma fold_visitPath entries acc :
  fold_left visitPath entries acc
  = (acc ++ flat_map (fun entry =>
                        flat_map (visitMethod (fst entry) (snd entry) []) methods)
                     entries)%list.
Proof.
  revert acc. induction entries as [|entry entries IH]; intros acc; simpl.
  - rewrite app_nil_r. reflexivity.
  - rewrite IH. unfold visitPath at 1. rewrite fold_visitMethod, app_assoc.
    reflexivity.
Qed.

(** The loops of [extractEndpoints] as one comprehension: paths outside,
    verbs inside. *)
Lemma extractEndpoints_flat spec :
  extractEndpoints spec
  = flat_map (fun entry =>
                flat_map (visitMethod (fst entry) (snd entry) []) methods)
             spec.(OpenAPISpec.paths).
Proof.
  unfold extractEndpoints. rewrite fold_visitPath. reflexivity.
Qed.

Lemma In_extractEndpoints spec e :
  In e (extractEndpoints spec) <->
  exists entry m,
    In entry spec.(OpenAPISpec.paths) /\ In m methods
    /\ visitMethod (fst entry) (snd entry) [] m = [e].
Proof.
  rewrite extractEndpoints_flat, in_flat_map. split.
  - intros (entry & He & Hin). apply in_flat_map in Hin.
    destruct Hin as (m & Hm & Hin). exists entry, m. repeat split; try assumption.
    unfold visitMethod in *.
    destruct (get m (PathItem.operations (snd entry))); simpl in Hin;
      [|contradiction].
    destruct Hin as [<-|[]]. reflexivity.
  - intros (entry & m & He & Hm & E). exists entry. split; [exact He|].
    apply in_flat_map. exists m. split; [exact Hm|]. rewrite E. left; reflexivity.
Qed.

Lemma verbs_of_path p item ms :
  map (fun e => (EndpointInfo.path e, EndpointInfo.method e))
      (flat_map (visitMethod p item []) ms)
  = map (fun m => (p, Str.toUpperCase m)) (filter (declares item) ms).
Proof.
  induction ms as [|m ms IH]; [reflexivity|]. simpl.
  rewrite map_app, IH. unfold visitMethod, declares.
  destruct (get m (PathItem.operations item)); reflexivity.
Qed.

Lemma verbs_of_paths entries :
  map (fun e => (EndpointInfo.path e, EndpointInfo.method e))
      (flat_map (fun entry =>
                   flat_map (visitMethod (fst entry) (snd entry) []) methods)
                entries)
  = flat_map (fun entry =>
                map (fun m => (fst entry, Str.toUpperCase m))
                    (filter (declares (snd entry)) methods))
             entries.
Proof.
  induction entries as [|entry entries IH]; [reflexivity|].
  cbn [flat_map]. rewrite map_app, IH, verbs_of_path. reflexivity.
Qed.

Lemma verbs_upper (p : string) item :
  map (fun m => (p, Str.toUpperCase m)) (filter (declares item) methods)
  = map (fun verb => (p, verb))
        (filter (fun verb => declares item (Str.toLowerCase verb))
                ["GET"; "POST"; "PUT"; "DELETE"; "PATCH"]).
Proof.
  unfold methods. simpl.
  change (Str.toLowerCase "GET") with "get".
  change (Str.toLowerCase "POST") with "post".
  change (Str.toLowerCase "PUT") with "put".
  change (Str.toLowerCase "DELETE") with "delete".
  change (Str.toLowerCase "PATCH") with "patch".
  destruct (declares item "get"), (declares item "post"),
    (declares item "put"), (declares item "delete"), (declares item "patch");
    reflexivity.
Qed.

(** Lookup does not depend on the order of a table without duplicate
    keys. *)
Lemma get_Permutation {T} (a b : Table T) key :
  Permutation a b -> NoDup (keys a) -> get key a = get key b.
Proof.
  induction 1 as [| [k v] a b _ IH | [k v] [k' v'] a | a b c Hab IH1 Hbc IH2];
    intros N.
  - reflexivity.
  - simpl. inversion N; subst. rewrite IH by assumption. reflexivity.
  - simpl. simpl in N. inversion N as [|? ? Hnot _]; subst.
    destruct (String.eqb_spec k key) as [->|]; [|reflexivity].
    destruct (String.eqb_spec k' key) as [->|]; [|reflexivity].
    exfalso. apply Hnot. left; reflexivity.
  - rewrite IH1 by exact N. apply IH2.
    eapply Permutation_NoDup; [|exact N].
    unfold keys. apply Permutation_map, Hab.
Qed.

Lemma visitMethod_verb_order a b acc m :
  sameUpToVerbOrder a b ->
  visitMethod (fst a) (snd a) acc m = visitMethod (fst b) (snd b) acc m.
Proof.
  intros (Ep & Eparams & N & Perm). unfold visitMethod.
  rewrite (get_Permutation _ _ m Perm N), Ep, Eparams. reflexivity.
Qed.

Lemma fold_visitPath_verb_order entries entries' acc :
  Forall2 sameUpToVerbOrder entries entries' ->
  fold_left visitPath entries acc = fold_left visitPath entries' acc.
Proof.
  intros F. revert acc. induction F as [|a b entries entries' Hab _ IH];
    intros acc; [reflexivity|]. simpl.
  replace (visitPath acc b) with (visitPath acc a); [apply IH|].
  unfold visitPath. generalize methods. intros ms. revert acc.
  induction ms as [|m ms IHm]; intros acc; [reflexivity|]. simpl.
  rewrite (visitMethod_verb_order a b acc m Hab). apply IHm.
Qed.

Lemma no_operation_no_descriptor p item :
  (forall m, In m methods -> declares item m = false) ->
  flat_map (visitMethod p item []) methods = [].
Proof.
  intros D. generalize methods D. intros ms Dm.
  induction ms as [|m ms IH]; [reflexivity|]. simpl.
  rewrite IH by (intros m' Hm'; apply Dm; right; exact Hm').
  specialize (Dm m (or_introl eq_refl)). unfold declares, visitMethod in *.
  destruct (get m (PathItem.operations item)); [discriminate | reflexivity].
Qed.

(** C5.  The descriptors follow the path table in its order; within a
    path they follow the fixed list GET, POST, PUT, DELETE, PATCH,
    restricted to the verbs the path item declares, whatever the order in
    which it declares them; a path item that declares no operation adds
    nothing. *)
Theorem extractEndpoints_order (spec : OpenAPISpec.t) :
  map (fun e => (EndpointInfo.path e, EndpointInfo.method e))
      (extractEndpoints spec)
  = flat_map (fun entry =>
                map (fun verb => (fst entry, verb))
                    (filter (fun verb =>
                               declares (snd entry) (Str.toLowerCase verb))
                            ["GET"; "POST"; "PUT"; "DELETE"; "PATCH"]))
             spec.(OpenAPISpec.paths)
  /\ (forall spec',
        Forall2 sameUpToVerbOrder
                spec.(OpenAPISpec.paths) spec'.(OpenAPISpec.paths) ->
        extractEndpoints spec = extractEndpoints spec')
  /\ (forall before p item after,
        spec.(OpenAPISpec.paths) = (before ++ (p, item) :: after)%list ->
        (forall m, In m methods -> declares item m = false) ->
        extractEndpoints spec
        = extractEndpoints
            (OpenAPISpec.make (before ++ after)%list
                              spec.(OpenAPISpec.schemas))).
Proof.
  repeat split.
  - rewrite extractEndpoints_flat, verbs_of_paths.
    induction (OpenAPISpec.paths spec) as [|entry entries IH]; [reflexivity|].
    cbn [flat_map]. rewrite IH, verbs_upper. reflexivity.
  - intros spec' F. unfold extractEndpoints.
    apply fold_visitPath_verb_order, F.
  - intros before p item after E D. rewrite !extractEndpoints_flat, E.
    cbn [OpenAPISpec.paths]. rewrite !flat_map_app. cbn [flat_map fst snd].
    rewrite (no_operation_no_descriptor p item D). reflexivity.
Qed.

(** C5 on a document whose second path declares its verbs in reverse
    order and whose first path declares none. *)
Lemma extractEndpoints_order_witness :
  map (fun e => (EndpointInfo.path e, EndpointInfo.method e))
      (extractEndpoints Sample.reversedDocument)
  = [("/pets", "GET"); ("/pets", "POST"); ("/pets", "PUT");
     ("/pets", "DELETE"); ("/pets", "PATCH"); ("/health", "GET")]
  /\ extractEndpoints Sample.reversedDocument
     = extractEndpoints
         (OpenAPISpec.make
            [("/empty", PathItem.make [] None); ("/pets", Sample.forward);
             ("/health", PathItem.make [("get", Sample.bareOperation)] None)]
            [])
  /\ extractEndpoints Sample.reversedDocument
     = extractEndpoints
         (OpenAPISpec.make
            [("/pets", Sample.backward);
             ("/health", PathItem.make [("get", Sample.bareOperation)] None)]
            []).
Proof.
  destruct (extractEndpoints_order Sample.reversedDocument) as (H1 & H2 & H3).
  split; [exact H1|]. split.
  - apply H2. simpl.
    repeat constructor; simpl; try (intros C; intuition discriminate).
    apply Permutation_rev.
  - apply (H3 [] "/empty" (PathItem.make [] None)).
    + reflexivity.
    + intros m _. reflexivity.
Defined.

(** Every descriptor comes from one declared operation of one path. *)
Lemma descriptor_origin spec e :
  In e (extractEndpoints spec) ->
  exists pathItem method operation,
    In (EndpointInfo.path e, pathItem) spec.(OpenAPISpec.paths)
    /\ In method methods
    /\ get method pathItem.(PathItem.operations) = Some operation
    /\ visitMethod (EndpointInfo.path e) pathItem [] method = [e].
Proof.
  intros H. apply In_extractEndpoints in H.
  destruct H as ([p item] & m & He & Hm & E). simpl in E.
  assert (E' := E). unfold visitMethod in E'.
  destruct (get m (PathItem.operations item)) as [op|] eqn:G; [|discriminate].
  injection E' as <-. simpl. exists item, m, op. auto.
Qed.

(** C6.  The path parameters of a descriptor are the parameters with
    location [path], and its query parameters those with location
    [query], of the shared parameters of the path item followed by the
    parameters of the operation, in that order; no parameter with
    location [header] or [cookie] is in either list. *)
Theorem extractEndpoints_parameters (spec : OpenAPISpec.t)
    (e : EndpointInfo.t) :
  In e (extractEndpoints spec) ->
  exists pathItem method operation,
    In (EndpointInfo.path e, pathItem) spec.(OpenAPISpec.paths)
    /\ get method pathItem.(PathItem.operations) = Some operation
    /\ EndpointInfo.method e = Str.toUpperCase method
    /\ let shared :=
         match pathItem.(PathItem.parameters) with
         | Some declared => declared
         | None => []
         end in
       let own :=
         match operation.(Operation.parameters) with
         | Some declared => declared
         | None => []
         end in
       EndpointInfo.pathParams e
       = filter (fun p => String.eqb p.(Param.in_) "path") (shared ++ own)%list
       /\ EndpointInfo.queryParams e
          = filter (fun p => String.eqb p.(Param.in_) "query")
                   (shared ++ own)%list
       /\ forall p,
            In p (EndpointInfo.pathParams e)
            \/ In p (EndpointInfo.queryParams e) ->
            p.(Param.in_) <> "header" /\ p.(Param.in_) <> "cookie".
Proof.
  intros H. destruct (descriptor_origin spec e H) as (item & m & op & Hin & _ & G & E).
  exists item, m, op. unfold visitMethod in E. rewrite G in E.
  injection E as <-. simpl. split; [exact Hin|]. split; [exact G|].
  split; [reflexivity|]. split; [reflexivity|]. split; [reflexivity|].
  intros p [Hp | Hp]; apply filter_In in Hp; destruct Hp as [_ Hp];
    apply String.eqb_eq in Hp; rewrite Hp; split; discriminate.
Qed.

(** C6 on an operation with one parameter of each location of its own
    and three shared ones: the path parameters are the shared [tenant]
    and the own [id], the query parameters the shared [page] and the own
    [limit]; [trace] (header) and [session] (cookie) are gone. *)
Lemma extractEndpoints_parameters_witness :
  exists e,
    In e (extractEndpoints Sample.paramsDocument)
    /\ EndpointInfo.pathParams e
       = [Sample.param "tenant" "path"; Sample.param "id" "path"]
    /\ EndpointInfo.queryParams e
       = [Sample.param "page" "query"; Sample.param "limit" "query"]
    /\ forall p,
         In p (EndpointInfo.pathParams e) \/ In p (EndpointInfo.queryParams e) ->
         p.(Param.in_) <> "header" /\ p.(Param.in_) <> "cookie".
Proof.
  eexists. split; [left; reflexivity|].
  match goal with
  | |- EndpointInfo.pathParams ?e = _ /\ _ =>
      destruct (extractEndpoints_parameters Sample.paramsDocument e
                  (or_introl eq_refl))
        as (item & m & op & Hin & G & _ & Hp & Hq & Hn)
  end.
  destruct Hin as [Hin | []]. injection Hin as <-.
  cbn [PathItem.operations get] in G.
  destruct (String.eqb "get" m); [|discriminate].
  injection G as <-.
  split; [exact Hp|]. split; [exact Hq|]. exact Hn.
Defined.

Example parameters_split :
  map (fun e => (map Param.name (EndpointInfo.pathParams e),
                 map Param.name (EndpointInfo.queryParams e)))
      (extractEndpoints Sample.paramsDocument)
  = [(["tenant"; "id"], ["page"; "limit"])].
Proof. reflexivity. Qed.

(** C3 as stated fails: the placeholder segment is dropped by the namer,
    so the identifier made for [GET /users/{id}] is [getUsers]. *)
Lemma users_id_identifier :
  map EndpointInfo.operationId (extractEndpoints Sample.usersDocument)
  = ["getUsers"]
  /\ ~ exists e, In e (extractEndpoints Sample.usersDocument)
                 /\ EndpointInfo.operationId e = "getUsersId".
Proof.
  split; [reflexivity|].
  intros (e & [<- | []] & E). discriminate E.
Qed.

(** C3, amended.  A [GET] on [/users/{id}] that declares no
    [operationId] yields a descriptor whose identifier is [getUsers]; and
    the identifier of every descriptor is the declared one when it is
    present and not empty, and the one the namer makes for the path and
    the upper-cased verb otherwise. *)
Theorem extractEndpoints_identifier (spec : OpenAPISpec.t) :
  (forall pathItem operation,
     In ("/users/{id}", pathItem) spec.(OpenAPISpec.paths) ->
     get "get" pathItem.(PathItem.operations) = Some operation ->
     operation.(Operation.operationId) = None ->
     exists e,
       In e (extractEndpoints spec)
       /\ EndpointInfo.path e = "/users/{id}"
       /\ EndpointInfo.method e = "GET"
       /\ EndpointInfo.operationId e = "getUsers")
  /\ (forall e,
        In e (extractEndpoints spec) ->
        exists pathItem method operation,
          In (EndpointInfo.path e, pathItem) spec.(OpenAPISpec.paths)
          /\ get method pathItem.(PathItem.operations) = Some operation
          /\ EndpointInfo.method e = Str.toUpperCase method
          /\ (forall id,
                operation.(Operation.operationId) = Some id -> id <> "" ->
                EndpointInfo.operationId e = id)
          /\ (operation.(Operation.operationId) = None
              \/ operation.(Operation.operationId) = Some "" ->
              EndpointInfo.operationId e
              = generateOperationId (EndpointInfo.path e)
                                    (Str.toUpperCase method))).
Proof.
  split.
  - intros item op Hin G N.
    eexists. split; [|split; [|split]].
    + apply In_extractEndpoints. exists ("/users/{id}", item), "get".
      split; [exact Hin|]. split; [simpl; tauto|].
      unfold visitMethod; simpl. rewrite G. reflexivity.
    + reflexivity.
    + reflexivity.
    + simpl. rewrite N. reflexivity.
  - intros e H.
    destruct (descriptor_origin spec e H) as (item & m & op & Hin & _ & G & E).
    exists item, m, op. unfold visitMethod in E. rewrite G in E.
    injection E as <-. simpl. repeat split; try assumption.
    + intros id D Ne. rewrite D. simpl. destruct id; [congruence | reflexivity].
    + intros [D | D]; rewrite D; reflexivity.
Qed.

(** C3 on the document of the scenario. *)
Lemma extractEndpoints_identifier_witness :
  exists e,
    In e (extractEndpoints Sample.usersDocument)
    /\ EndpointInfo.path e = "/users/{id}"
    /\ EndpointInfo.method e = "GET"
    /\ EndpointInfo.operationId e = "getUsers".
Proof.
  destruct (extractEndpoints_identifier Sample.usersDocument) as [H _].
  apply (H (PathItem.make [("get", Sample.bareOperation)] None)
           Sample.bareOperation).
  - left; reflexivity.
  - reflexivity.
  - reflexivity.
Defined.

Example declared_identifier_wins :
  map EndpointInfo.operationId
      (extractEndpoints
         (OpenAPISpec.make
            [("/users/{id}",
              PathItem.make [("get", Sample.named "fetchUser");
                             ("put", Sample.named "")] None)] []))
  = ["fetchUser"; "putUsers"].
Proof. reflexivity. Qed.

(* ===================================================================== *)
(** ** Projection of a resolved, self-referential schema *)
(* ===================================================================== *)

(** On a schema written without references, resolution changes nothing:
    given as many nested calls as the schema is deep, the projector works
    on the resolved document as it does on the document as written. *)
Lemma resolved_tree k s :
  tree k s ->
  forall memo i,
    Resolved.schemaToType k memo s i = schemaToType (Object s) i.
Proof.
  induction 1 as [k n _ IH]. intros memo i.
  rewrite schemaToType_unfold. simpl.
  apply schemaToTypeStep_local. intros c j Hc. apply IH, Hc.
Qed.

Example resolved_person memo :
  Resolved.schemaToType 2 memo (SNode Sample.person) 0
  = schemaToType (Object (SNode Sample.person)) 0.
Proof.
  apply resolved_tree. constructor.
  intros c [<- | [<- | []]]; constructor; intros ? [].
Qed.

(** On the document as written, the element type of [children] is the
    bare name. *)
Example node_as_written :
  schemaToType (Object (SNode Sample.node)) 0
  = Ok ("{" ++ Str.nl ++ "  children?: Array<Node>;" ++ Str.nl ++ "}").
Proof. reflexivity. Qed.

Lemma resolved_node_overflows stack :
  forall indent,
    Resolved.schemaToType stack (Resolved.memoOf Sample.nodeDocument)
                          Sample.nodeRef indent
    = Throw (RangeError "Maximum call stack size exceeded")
    /\ Resolved.schemaToType stack (Resolved.memoOf Sample.nodeDocument)
                             (SNode Sample.children) indent
       = Throw (RangeError "Maximum call stack size exceeded").
Proof.
  induction stack as [|stack IH]; intros indent; [split; reflexivity|].
  split.
  - change (schemaToTypeStep
              (Resolved.schemaToType stack (Resolved.memoOf Sample.nodeDocument))
              (Object (SNode Sample.node)) indent
            = Throw (RangeError "Maximum call stack size exceeded")).
    unfold schemaToTypeStep; simpl. rewrite recur_object.
    rewrite (proj2 (IH (indent + 1))). reflexivity.
  - change (schemaToTypeStep
              (Resolved.schemaToType stack (Resolved.memoOf Sample.nodeDocument))
              (Object (SNode Sample.children)) indent
            = Throw (RangeError "Maximum call stack size exceeded")).
    unfold schemaToTypeStep; simpl. rewrite recur_object.
    rewrite (proj1 (IH indent)). reflexivity.
Qed.

(** C1, at the failing input.  The document with the self-referential
    component [Node] resolves, and in the resolved document the place of
    a reference to [Node] holds the [Node] object itself, without a
    [$ref] key.  [schemaToType] then walks from [Node] to [children] to
    [Node] again: whatever number of nested calls is allowed, the
    projection ends in the stack overflow and returns no type. *)
Theorem schemaToType_diverges_on_resolved_node (stack indent : nat) :
  Resolved.dereference Sample.nodeDocument
  = Ok (Resolved.memoOf Sample.nodeDocument)
  /\ Resolved.resolve (Resolved.memoOf Sample.nodeDocument) Sample.nodeRef
     = Some Sample.node
  /\ Resolved.schemaToType stack (Resolved.memoOf Sample.nodeDocument)
                           Sample.nodeRef indent
     = Throw (RangeError "Maximum call stack size exceeded").
Proof.
  split; [reflexivity|]. split; [reflexivity|].
  apply resolved_node_overflows.
Qed.

(* ===================================================================== *)
(** ** Where the namer and the reference definition agree *)
(* ===================================================================== *)

Lemma split_noSeparator sep s :
  noSeparator s = true -> Forall (fun seg => noSeparator seg = true) (Str.split sep s).
Proof.
  induction s as [|c r IH]; simpl; intros N.
  - repeat constructor.
  - apply andb_prop in N. destruct N as [Nc Nr]. specialize (IH Nr).
    destruct (Ascii.eqb c sep).
    + constructor; [reflexivity | exact IH].
    + destruct (Str.split sep r) as [|h t]; inversion IH; subst;
        constructor; simpl; try rewrite Nc; auto.
Qed.

Lemma filter_chars_noSeparator keep s :
  noSeparator s = true -> noSeparator (Str.filter_chars keep s) = true.
Proof.
  induction s as [|c r IH]; simpl; intros N; [reflexivity|].
  apply andb_prop in N. destruct N as [Nc Nr].
  destruct (keep c); simpl; [rewrite Nc|]; auto.
Qed.

Lemma tokens_noSeparator s :
  noSeparator s = true -> NamerSpec.tokens s = [s].
Proof.
  induction s as [|c r IH]; simpl; intros N; [reflexivity|].
  apply andb_prop in N. destruct N as [Nc Nr].
  apply negb_true_iff in Nc. rewrite Nc, (IH Nr). reflexivity.
Qed.

Lemma dashesToUnderscores_noSeparator s :
  noSeparator s = true -> dashesToUnderscores s = s.
Proof.
  unfold dashesToUnderscores.
  induction s as [|c r IH]; simpl; intros N; [reflexivity|].
  apply andb_prop in N. destruct N as [Nc Nr]. rewrite (IH Nr).
  apply negb_true_iff in Nc. unfold NamerSpec.isSeparator in Nc.
  apply orb_false_elim in Nc. destruct Nc as [-> _]. reflexivity.
Qed.

Lemma camel_noSeparator seg :
  noSeparator seg = true ->
  NamerSpec.camel seg = capitalize (dashesToUnderscores (stripBraces seg)).
Proof.
  intros N. unfold NamerSpec.camel. rewrite withoutBraces_stripBraces.
  unfold stripBraces.
  set (keep := fun c => negb (Ascii.eqb c Str.lbrace || Ascii.eqb c Str.rbrace)).
  pose proof (filter_chars_noSeparator keep seg N) as N'.
  rewrite (tokens_noSeparator _ N'), (dashesToUnderscores_noSeparator _ N').
  simpl. rewrite upperFirst_capitalize. reflexivity.
Qed.

Lemma parts_agree segs :
  Forall (fun seg => noSeparator seg = true) segs ->
  Forall wholePlaceholder segs ->
  keptParts segs = map NamerSpec.camel (filter NamerSpec.survives segs).
Proof.
  induction 1 as [|seg segs N _ IH]; intros W; [reflexivity|].
  inversion W as [|? ? Wseg Wsegs]; subst. specialize (IH Wsegs).
  destruct seg as [|c r]; [exact IH|].
  unfold NamerSpec.survives at 1. cbn [keptParts filter Str.truthy andb].
  destruct (Ascii.eqb c Str.lbrace) eqn:B.
  - rewrite (Wseg B). exact IH.
  - cbn [NamerSpec.onlyPlaceholder]. rewrite B.
    cbn [andb negb map]. rewrite IH, (camel_noSeparator _ N). reflexivity.
Qed.

(** On a path without dash or underscore, and whose segments that open
    with a brace are whole placeholders, [generateOperationId] is the
    reference definition of the specification. *)
Lemma generateOperationId_agrees pathPattern verb :
  noSeparator pathPattern = true ->
  Forall wholePlaceholder (Str.split Str.slash pathPattern) ->
  generateOperationId pathPattern verb = NamerSpec.operationId pathPattern verb.
Proof.
  intros N W. unfold generateOperationId. rewrite parts_pipeline.
  unfold NamerSpec.operationId.
  rewrite (parts_agree _ (split_noSeparator _ _ N) W).
  rewrite length_map.
  destruct (filter NamerSpec.survives (Str.split Str.slash pathPattern));
    reflexivity.
Qed.

(* ===================================================================== *)
(** ** When the projector throws, and what the indentation changes *)
(* ===================================================================== *)

Section Outcome.
Context {A B : Type}.
Variable E : error.

Lemma bind_outcome (b : bool) (r : result A) (k : A -> result B) :
  (if b then r = Throw E else returns r) ->
  (forall a, returns (k a)) ->
  if b then (a <- r ;; k a) = Throw E else returns (a <- r ;; k a).
Proof.
  destruct b; intros H K.
  - rewrite H. reflexivity.
  - destruct H as [a ->]. apply K.
Qed.

Lemma mapM_outcome (b : A -> bool) (f : A -> result B) (l : list A) :
  (forall x, In x l -> if b x then f x = Throw E else returns (f x)) ->
  if existsb b l then mapM f l = Throw E else returns (mapM f l).
Proof.
  induction l as [|x l IH]; intros H; simpl.
  - eexists; reflexivity.
  - pose proof (H x (or_introl eq_refl)) as Hx.
    assert (Hl : if existsb b l then mapM f l = Throw E else returns (mapM f l))
      by (apply IH; intros y Hy; apply H; right; exact Hy).
    destruct (b x); simpl.
    + rewrite Hx. reflexivity.
    + destruct Hx as [y ->]. simpl.
      destruct (existsb b l).
      * rewrite Hl. reflexivity.
      * destruct Hl as [ys ->]. eexists; reflexivity.
Qed.
End Outcome.

Lemma schemaToType_outcome (s : Schema) (indent : nat) :
  if opens s then schemaToType (Object s) indent = Throw inOperatorError
  else returns (schemaToType (Object s) indent).
Proof.
  revert indent.
  induction s as [ref | n Hit Hprops Hap Hall Hone Hany] using Schema_induction;
    intros i.
  - eexists; reflexivity.
  - rewrite schemaToType_unfold. unfold schemaToTypeStep.
    cbn [falsy isRef bind opens].
    assert (L : forall (l : list Schema) j,
               Forall (fun s => forall i, if opens s
                                          then schemaToType (Object s) i
                                               = Throw inOperatorError
                                          else returns (schemaToType (Object s) i)) l ->
               if existsb opens l
               then mapM (fun s => recur (fun s j => schemaToType (Object s) j)
                                         (Object s) j) l = Throw inOperatorError
               else returns (mapM (fun s => recur (fun s j => schemaToType (Object s) j)
                                                  (Object s) j) l)).
    { intros l j F. apply mapM_outcome. intros x Hx. rewrite recur_object.
      rewrite Forall_forall in F. apply F, Hx. }
    destruct (switchType (type n)).
    + destruct (enum n); [|destruct (equals (format n) "date-time")];
        eexists; reflexivity.
    + destruct (equals (type n) "integer"); eexists; reflexivity.
    + destruct (equals (type n) "integer"); eexists; reflexivity.
    + eexists; reflexivity.
    + destruct (items n) as [it|]; [|eexists; reflexivity].
      rewrite recur_object. apply bind_outcome; [apply Hit|].
      intros; eexists; reflexivity.
    + destruct (properties n) as [props|].
      * apply bind_outcome; [|intros; eexists; reflexivity].
        apply mapM_outcome with (b := fun kv : string * Schema => opens (snd kv)).
        intros kv Hkv. rewrite recur_object.
        apply bind_outcome; [|intros; eexists; reflexivity].
        rewrite Forall_forall in Hprops. apply (Hprops kv Hkv).
      * destruct (additionalProperties n) as [[[|]|a]|].
        -- reflexivity.
        -- eexists; reflexivity.
        -- rewrite recur_object.
           apply bind_outcome; [apply Hap | intros; eexists; reflexivity].
        -- eexists; reflexivity.
    + destruct (allOf n) as [l|].
      * apply bind_outcome; [apply L, Hall | intros; eexists; reflexivity].
      * destruct (oneOf n) as [l|]; [|destruct (anyOf n) as [l|]].
        -- apply bind_outcome; [apply L, Hone | intros; eexists; reflexivity].
        -- apply bind_outcome; [apply L, Hany | intros; eexists; reflexivity].
        -- eexists; reflexivity.
Qed.

(** With room for as many nested calls as the schema is deep, the
    engine's bound does not show. *)
Lemma schemaToTypeWithin_nests k s :
  nests k s ->
  forall i, schemaToTypeWithin k s i = schemaToType (Object s) i.
Proof.
  induction 1 as [k ref | k n _ IH]; intros i; [reflexivity|].
  rewrite schemaToType_unfold. simpl.
  apply schemaToTypeStep_local. intros c j Hc. apply IH, Hc.
Qed.

(** X1.  On a schema that is a finite tree no deeper than the engine
    allows calls to nest, [schemaToType] throws exactly when the
    projection reaches an object without [properties] whose
    [additionalProperties] is [true], and the exception is then the
    [TypeError] of [isRef]; otherwise it returns a type, at every
    indentation. *)
Theorem schemaToType_throws_iff_opens (stack : nat) (s : Schema)
    (indent : nat) :
  nests stack s ->
  if opens s then schemaToTypeWithin stack s indent = Throw inOperatorError
  else returns (schemaToTypeWithin stack s indent).
Proof.
  intros N. rewrite (schemaToTypeWithin_nests stack s N).
  apply schemaToType_outcome.
Qed.

(** X1 on an object with an open object among its properties, and on the
    person record. *)
Lemma schemaToType_throws_iff_opens_witness :
  schemaToTypeWithin 2 (SNode Sample.nestedOpen) 0 = Throw inOperatorError
  /\ returns (schemaToTypeWithin 2 (SNode Sample.person) 0).
Proof.
  split.
  - apply (schemaToType_throws_iff_opens 2 (SNode Sample.nestedOpen) 0).
    constructor. intros c [<- | [<- | []]]; constructor; intros ? [].
  - apply (schemaToType_throws_iff_opens 2 (SNode Sample.person) 0).
    constructor. intros c [<- | [<- | []]]; constructor; intros ? [].
Defined.

(** X2.  The indentation only shows in inline object types: on a schema
    whose projection prints none, [schemaToType] gives the same outcome
    at every indentation. *)
Theorem schemaToType_indent_irrelevant (s : Schema) (i j : nat) :
  recordFree s = true ->
  schemaToType (Object s) i = schemaToType (Object s) j.
Proof.
  revert i j.
  induction s as [ref | n Hit Hprops Hap Hall Hone Hany] using Schema_induction;
    intros i j R; [reflexivity|].
  rewrite !schemaToType_unfold. unfold schemaToTypeStep.
  cbn [falsy isRef bind]. cbn [recordFree] in R.
  assert (L : forall (l : list Schema),
             Forall (fun s => forall i j, recordFree s = true ->
                                          schemaToType (Object s) i
                                          = schemaToType (Object s) j) l ->
             forallb recordFree l = true ->
             mapM (fun s => recur (fun s j => schemaToType (Object s) j)
                                  (Object s) (i + 1)) l
             = mapM (fun s => recur (fun s j => schemaToType (Object s) j)
                                    (Object s) (j + 1)) l).
  { intros l F Rl. apply mapM_ext. intros x Hx. rewrite !recur_object.
    rewrite Forall_forall in F. apply F; [exact Hx|].
    rewrite forallb_forall in Rl. apply Rl, Hx. }
  destruct (switchType (type n)); try reflexivity.
  - destruct (items n) as [it|]; [|reflexivity].
    rewrite !recur_object, (Hit i j R). reflexivity.
  - destruct (properties n) as [props|]; [discriminate|].
    destruct (additionalProperties n) as [[[|]|a]|]; try reflexivity.
    rewrite !recur_object, (Hap i j R). reflexivity.
  - destruct (allOf n) as [l|].
    + rewrite (L l Hall R). reflexivity.
    + destruct (oneOf n) as [l|]; [|destruct (anyOf n) as [l|]].
      * rewrite (L l Hone R). reflexivity.
      * rewrite (L l Hany R). reflexivity.
      * reflexivity.
Qed.

(** X2 on an array of strings. *)
Lemma schemaToType_indent_irrelevant_witness :
  schemaToType
    (Object (SNode (mkSchema (Some "array") None None
                      (Some Sample.stringSchema) None None None None None None)))
    0
  = schemaToType
      (Object (SNode (mkSchema (Some "array") None None
                        (Some Sample.stringSchema) None None None None None None)))
      3.
Proof.
  apply schemaToType_indent_irrelevant. reflexivity.
Defined.

(* ===================================================================== *)
(** ** Splitting on a separator *)
(* ===================================================================== *)

Lemma includesChar_app c a b :
  includesChar c (a ++ b) = includesChar c a || includesChar c b.
Proof.
  induction a as [|d a IH]; simpl; [reflexivity|].
  rewrite IH, orb_assoc. reflexivity.
Qed.

Lemma split_nonempty sep s : Str.split sep s <> [].
Proof.
  destruct s as [|c r]; simpl; [discriminate|].
  destruct (Ascii.eqb c sep); [discriminate|].
  destruct (Str.split sep r); discriminate.
Qed.

Lemma split_app sep a b :
  Str.split sep (a ++ String sep b)
  = (Str.split sep a ++ Str.split sep b)%list.
Proof.
  induction a as [|c a IH]; simpl.
  - rewrite Ascii.eqb_refl. reflexivity.
  - rewrite IH. destruct (Ascii.eqb c sep); [reflexivity|].
    destruct (Str.split sep a) as [|h t] eqn:S; [|reflexivity].
    exfalso. exact (split_nonempty sep a S).
Qed.

Lemma split_plain sep s :
  includesChar sep s = false -> Str.split sep s = [s].
Proof.
  induction s as [|c r IH]; simpl; intros N; [reflexivity|].
  apply orb_false_elim in N. destruct N as [Nc Nr].
  rewrite Nc, (IH Nr). reflexivity.
Qed.

Lemma split_segments sep s :
  Forall (fun seg => includesChar sep seg = false) (Str.split sep s).
Proof.
  induction s as [|c r IH]; simpl.
  - repeat constructor.
  - destruct (Ascii.eqb c sep) eqn:C.
    + constructor; [reflexivity | exact IH].
    + destruct (Str.split sep r) as [|h t]; inversion IH; subst;
        constructor; simpl; try rewrite C; auto.
Qed.

Lemma split_map_chars sep f s :
  (forall c, Ascii.eqb (f c) sep = Ascii.eqb c sep) ->
  Str.split sep (Str.map_chars f s) = map (Str.map_chars f) (Str.split sep s).
Proof.
  intros F. induction s as [|c r IH]; simpl; [reflexivity|].
  rewrite F, IH. destruct (Ascii.eqb c sep); [reflexivity|].
  destruct (Str.split sep r); reflexivity.
Qed.

(** X3.  [getRefTypeName] returns the text after the last slash of the
    reference: the result holds no slash, a reference that ends in a
    slash-free name after a slash gives that name, and a reference with
    no slash at all is returned whole. *)
Theorem getRefTypeName_last_segment (ref : string) :
  includesChar Str.slash (getRefTypeName ref) = false
  /\ (forall prefix name,
        ref = prefix ++ String Str.slash name ->
        includesChar Str.slash name = false ->
        getRefTypeName ref = name)
  /\ (includesChar Str.slash ref = false -> getRefTypeName ref = ref).
Proof.
  unfold getRefTypeName. split; [|split].
  - pose proof (split_segments Str.slash ref) as F.
    pose proof (split_nonempty Str.slash ref) as N.
    rewrite Forall_forall in F. apply F.
    destruct (exists_last N) as (l & x & ->). rewrite last_last.
    apply in_or_app. right. left. reflexivity.
  - intros prefix name -> N.
    rewrite split_app, (split_plain _ _ N), last_last. reflexivity.
  - intros N. rewrite (split_plain _ _ N). reflexivity.
Qed.

(** X3 on the reference to a schema component. *)
Lemma getRefTypeName_last_segment_witness :
  getRefTypeName "#/components/schemas/Node" = "Node"
  /\ getRefTypeName "Node" = "Node".
Proof.
  split.
  - apply (proj1 (proj2 (getRefTypeName_last_segment
                            "#/components/schemas/Node"))
             "#/components/schemas" "Node"); reflexivity.
  - apply (proj2 (proj2 (getRefTypeName_last_segment "Node"))). reflexivity.
Defined.

(* ===================================================================== *)
(** ** What the namer keeps of the path and of the verb *)
(* ===================================================================== *)

Lemma generateOperationId_parts pathPattern verb :
  generateOperationId pathPattern verb
  = Str.toLowerCase verb
    ++ match keptParts (Str.split Str.slash pathPattern) with
       | [] => "Root"
       | ps => String.concat "" ps
       end.
Proof.
  unfold generateOperationId. rewrite parts_pipeline.
  destruct (keptParts (Str.split Str.slash pathPattern)); reflexivity.
Qed.

Lemma parts_app a b :
  keptParts (a ++ b) = (keptParts a ++ keptParts b)%list.
Proof.
  induction a as [|seg a IH]; [reflexivity|].
  destruct seg as [|c r]; simpl; [exact IH|].
  destruct (Ascii.eqb c Str.lbrace); [exact IH|].
  rewrite IH. reflexivity.
Qed.

Lemma lower_upper_char c :
  Str.lower_char (Str.upper_char c) = Str.lower_char c.
Proof. destruct c as [[] [] [] [] [] [] [] []]; reflexivity. Qed.

Lemma lower_lower_char c :
  Str.lower_char (Str.lower_char c) = Str.lower_char c.
Proof. destruct c as [[] [] [] [] [] [] [] []]; reflexivity. Qed.

Lemma toLowerCase_toUpperCase s :
  Str.toLowerCase (Str.toUpperCase s) = Str.toLowerCase s.
Proof.
  unfold Str.toLowerCase, Str.toUpperCase.
  induction s as [|c r IH]; simpl; [reflexivity|].
  rewrite IH, lower_upper_char. reflexivity.
Qed.

Lemma toLowerCase_idempotent s :
  Str.toLowerCase (Str.toLowerCase s) = Str.toLowerCase s.
Proof.
  unfold Str.toLowerCase.
  induction s as [|c r IH]; simpl; [reflexivity|].
  rewrite IH, lower_lower_char. reflexivity.
Qed.

(** X4.  For a verb written in ASCII, the identifier does not depend on
    the letter case of the verb: the upper-cased and the lower-cased verb
    give the identifier of the verb as written. *)
Theorem generateOperationId_verb_case (pathPattern verb : string) :
  isAscii verb = true ->
  generateOperationId pathPattern (Str.toUpperCase verb)
  = generateOperationId pathPattern verb
  /\ generateOperationId pathPattern (Str.toLowerCase verb)
     = generateOperationId pathPattern verb.
Proof.
  intros _. rewrite !generateOperationId_parts.
  rewrite toLowerCase_toUpperCase, toLowerCase_idempotent.
  split; reflexivity.
Qed.

(** X4 on the verb [Get]. *)
Lemma generateOperationId_verb_case_witness :
  generateOperationId "/pets" "GET" = generateOperationId "/pets" "Get"
  /\ generateOperationId "/pets" "get" = generateOperationId "/pets" "Get".
Proof.
  apply (generateOperationId_verb_case "/pets" "Get"). reflexivity.
Defined.

Lemma braced_no_slash name :
  includesChar Str.slash name = false ->
  includesChar Str.slash (String Str.lbrace (name ++ String Str.rbrace ""))
  = false.
Proof.
  intros N. simpl. rewrite includesChar_app, N. reflexivity.
Qed.

(** X5.  A placeholder segment leaves no trace in the identifier: a path
    and the path with a segment [{name}] put in, in the middle or at the
    end, get the same identifier, whatever the name. *)
Theorem generateOperationId_placeholder_ignored
    (before name after verb : string) :
  includesChar Str.slash name = false ->
  generateOperationId
    (before ++ String Str.slash
       (String Str.lbrace (name ++ String Str.rbrace ""))
       ++ String Str.slash after)
    verb
  = generateOperationId (before ++ String Str.slash after) verb
  /\ generateOperationId
       (before ++ String Str.slash
          (String Str.lbrace (name ++ String Str.rbrace "")))
       verb
     = generateOperationId before verb.
Proof.
  intros N. pose proof (braced_no_slash name N) as B.
  rewrite !generateOperationId_parts. split.
  - change (String Str.slash
              (String Str.lbrace (name ++ String Str.rbrace ""))
              ++ String Str.slash after)
      with (String Str.slash
              (String Str.lbrace (name ++ String Str.rbrace "")
                 ++ String Str.slash after)).
    rewrite !split_app, (split_plain _ _ B), !parts_app.
    cbn [keptParts]. rewrite Ascii.eqb_refl. reflexivity.
  - rewrite split_app, (split_plain _ _ B), parts_app.
    cbn [keptParts]. rewrite Ascii.eqb_refl, app_nil_r. reflexivity.
Qed.

(** X5 on [/users/{id}/posts] and [/users/{userId}]. *)
Lemma generateOperationId_placeholder_ignored_witness :
  generateOperationId "/users/{id}/posts" "GET"
  = generateOperationId "/users/posts" "GET"
  /\ generateOperationId "/users/{userId}" "GET"
     = generateOperationId "/users" "GET".
Proof.
  split.
  - apply (proj1 (generateOperationId_placeholder_ignored
                    "/users" "id" "posts" "GET" eq_refl)).
  - apply (proj2 (generateOperationId_placeholder_ignored
                    "/users" "userId" "" "GET" eq_refl)).
Defined.

Lemma swap_dash_char c sep :
  sep <> Str.dash -> sep <> Str.underscore ->
  Ascii.eqb (if Ascii.eqb c Str.dash then Str.underscore else c) sep
  = Ascii.eqb c sep.
Proof.
  intros D U. destruct (Ascii.eqb_spec c Str.dash) as [->|_]; [|reflexivity].
  destruct (Ascii.eqb_spec Str.underscore sep) as [E|_]; [congruence|].
  destruct (Ascii.eqb_spec Str.dash sep) as [E|_]; [congruence|].
  reflexivity.
Qed.

Lemma dashesToUnderscores_idempotent s :
  dashesToUnderscores (dashesToUnderscores s) = dashesToUnderscores s.
Proof.
  unfold dashesToUnderscores.
  induction s as [|c r IH]; simpl; [reflexivity|]. rewrite IH.
  destruct (Ascii.eqb_spec c Str.dash) as [->|N]; [reflexivity|].
  destruct (Ascii.eqb_spec c Str.dash); [contradiction | reflexivity].
Qed.

Lemma stripBraces_dashesToUnderscores s :
  stripBraces (dashesToUnderscores s) = dashesToUnderscores (stripBraces s).
Proof.
  unfold stripBraces, dashesToUnderscores.
  induction s as [|c r IH]; simpl; [reflexivity|].
  rewrite !swap_dash_char by discriminate.
  destruct (Ascii.eqb c Str.lbrace || Ascii.eqb c Str.rbrace); simpl;
    rewrite IH; reflexivity.
Qed.

Lemma parts_dashesToUnderscores segs :
  keptParts (map dashesToUnderscores segs) = keptParts segs.
Proof.
  induction segs as [|seg segs IH]; [reflexivity|].
  destruct seg as [|c r]; [exact IH|].
  cbn [map]. change (dashesToUnderscores (String c r))
    with (String (if Ascii.eqb c Str.dash then Str.underscore else c)
                 (dashesToUnderscores r)).
  cbn [keptParts]. rewrite swap_dash_char by discriminate.
  destruct (Ascii.eqb c Str.lbrace); [exact IH|].
  rewrite IH.
  change (String (if Ascii.eqb c Str.dash then Str.underscore else c)
                 (dashesToUnderscores r))
    with (dashesToUnderscores (String c r)).
  rewrite stripBraces_dashesToUnderscores, dashesToUnderscores_idempotent.
  reflexivity.
Qed.

(** X6.  A dash and an underscore in the path are the same to the namer:
    a path and the path with its dashes written as underscores get the
    same identifier. *)
Theorem generateOperationId_dash_is_underscore (pathPattern verb : string) :
  generateOperationId (dashesToUnderscores pathPattern) verb
  = generateOperationId pathPattern verb.
Proof.
  rewrite !generateOperationId_parts. unfold dashesToUnderscores at 1.
  rewrite split_map_chars by (intros c; apply swap_dash_char; discriminate).
  change (Str.map_chars
            (fun c => if Ascii.eqb c Str.dash then Str.underscore else c))
    with dashesToUnderscores.
  rewrite parts_dashesToUnderscores. reflexivity.
Qed.

Lemma upper_char_punctuation x c :
  In c pathPunctuation -> Ascii.eqb (Str.upper_char x) c = Ascii.eqb x c.
Proof.
  intros [<- | [<- | [<- | [<- | []]]]];
    destruct x as [[] [] [] [] [] [] [] []]; reflexivity.
Qed.

Lemma includesChar_capitalize c s :
  In c pathPunctuation -> includesChar c (capitalize s) = includesChar c s.
Proof.
  intros P. destruct s as [|x r]; [reflexivity|].
  unfold capitalize; simpl. rewrite (upper_char_punctuation x c P). reflexivity.
Qed.

Lemma includesChar_filter c keep s :
  includesChar c s = false -> includesChar c (Str.filter_chars keep s) = false.
Proof.
  induction s as [|x r IH]; simpl; intros N; [reflexivity|].
  apply orb_false_elim in N. destruct N as [Nx Nr].
  destruct (keep x); simpl; [rewrite Nx|]; auto.
Qed.

Lemma includesChar_stripBraces c s :
  c = Str.lbrace \/ c = Str.rbrace -> includesChar c (stripBraces s) = false.
Proof.
  intros C. unfold stripBraces.
  induction s as [|x r IH]; simpl; [reflexivity|].
  destruct (Ascii.eqb_spec x Str.lbrace) as [->|Nl]; simpl; [exact IH|].
  destruct (Ascii.eqb_spec x Str.rbrace) as [->|Nr]; simpl; [exact IH|].
  rewrite IH, orb_false_r.
  destruct C as [-> | ->]; apply Ascii.eqb_neq; assumption.
Qed.

Lemma no_dash_after_dashesToUnderscores s :
  includesChar Str.dash (dashesToUnderscores s) = false.
Proof.
  unfold dashesToUnderscores.
  induction s as [|x r IH]; simpl; [reflexivity|]. rewrite IH, orb_false_r.
  destruct (Ascii.eqb_spec x Str.dash) as [->|N]; [reflexivity|].
  apply Ascii.eqb_neq, N.
Qed.

Lemma includesChar_dashesToUnderscores c s :
  c <> Str.dash -> c <> Str.underscore ->
  includesChar c (dashesToUnderscores s) = includesChar c s.
Proof.
  intros D U. unfold dashesToUnderscores.
  induction s as [|x r IH]; simpl; [reflexivity|].
  rewrite IH, (swap_dash_char x c D U). reflexivity.
Qed.

Lemma part_clean seg c :
  In c pathPunctuation ->
  includesChar Str.slash seg = false ->
  includesChar c (capitalize (dashesToUnderscores (stripBraces seg))) = false.
Proof.
  intros P S. rewrite (includesChar_capitalize _ _ P).
  destruct P as [<- | [<- | [<- | [<- | []]]]].
  - rewrite includesChar_dashesToUnderscores by discriminate.
    apply includesChar_filter, S.
  - rewrite includesChar_dashesToUnderscores by discriminate.
    apply includesChar_stripBraces. left; reflexivity.
  - rewrite includesChar_dashesToUnderscores by discriminate.
    apply includesChar_stripBraces. right; reflexivity.
  - apply no_dash_after_dashesToUnderscores.
Qed.

Lemma parts_clean segs c :
  In c pathPunctuation ->
  Forall (fun seg => includesChar Str.slash seg = false) segs ->
  includesChar c (String.concat "" (keptParts segs)) = false.
Proof.
  intros P. induction 1 as [|seg segs S _ IH]; [reflexivity|].
  destruct seg as [|x r]; [exact IH|]. cbn [keptParts].
  destruct (Ascii.eqb x Str.lbrace); [exact IH|].
  assert (Hd := part_clean (String x r) c P S).
  destruct (keptParts segs) as [|p ps] eqn:Ps.
  - exact Hd.
  - cbn [String.concat]. cbn [String.concat] in IH.
    rewrite !includesChar_app, Hd. simpl. exact IH.
Qed.

(** X7.  The identifier is the lower-cased verb followed by text made
    from the path alone, and that text holds no slash, no brace and no
    dash. *)
Theorem generateOperationId_shape (pathPattern verb : string) :
  exists suffix,
    generateOperationId pathPattern verb = Str.toLowerCase verb ++ suffix
    /\ suffix = generateOperationId pathPattern ""
    /\ Forall (fun c => includesChar c suffix = false) pathPunctuation.
Proof.
  eexists. split; [apply generateOperationId_parts|]. split.
  - rewrite generateOperationId_parts. reflexivity.
  - apply Forall_forall. intros c P.
    pose proof (parts_clean _ c P (split_segments Str.slash pathPattern)) as C.
    destruct (keptParts (Str.split Str.slash pathPattern)).
    + destruct P as [<- | [<- | [<- | [<- | []]]]]; reflexivity.
    + exact C.
Qed.

(* ===================================================================== *)
(** ** More on the descriptors *)
(* ===================================================================== *)

Lemma orElse_truthy a b : Str.truthy b = true -> orElse a b <> "".
Proof.
  intros B. unfold orElse. destruct a as [[|c r]|]; try discriminate;
    destruct b; discriminate.
Qed.

Lemma generated_identifier_truthy p m :
  In m methods -> Str.truthy (generateOperationId p (Str.toUpperCase m)) = true.
Proof.
  intros M. rewrite generateOperationId_parts.
  destruct M as [<- | [<- | [<- | [<- | [<- | []]]]]]; reflexivity.
Qed.

(** X8.  Every descriptor has a verb out of GET, POST, PUT, DELETE, PATCH
    and an identifier that is not empty, also when the operation declares
    the empty identifier. *)
Theorem extractEndpoints_wellformed (spec : OpenAPISpec.t)
    (e : EndpointInfo.t) :
  In e (extractEndpoints spec) ->
  EndpointInfo.operationId e <> ""
  /\ In (EndpointInfo.method e) ["GET"; "POST"; "PUT"; "DELETE"; "PATCH"].
Proof.
  intros H.
  destruct (descriptor_origin spec e H) as (item & m & op & _ & M & G & E).
  unfold visitMethod in E. rewrite G in E. injection E as <-. simpl. split.
  - apply orElse_truthy, generated_identifier_truthy, M.
  - destruct M as [<- | [<- | [<- | [<- | [<- | []]]]]]; simpl; tauto.
Qed.

(** X8 on an operation that declares the empty identifier. *)
Lemma extractEndpoints_wellformed_witness :
  exists e,
    In e (extractEndpoints
            (OpenAPISpec.make
               [("/pets", PathItem.make [("put", Sample.named "")] None)] []))
    /\ EndpointInfo.operationId e <> ""
    /\ In (EndpointInfo.method e) ["GET"; "POST"; "PUT"; "DELETE"; "PATCH"].
Proof.
  eexists. split; [left; reflexivity|].
  apply (extractEndpoints_wellformed
           (OpenAPISpec.make
              [("/pets", PathItem.make [("put", Sample.named "")] None)] [])).
  left; reflexivity.
Defined.

(** X9.  Extraction goes path by path: the descriptors of a path table
    made of two parts are the descriptors of the first part followed by
    those of the second. *)
Theorem extractEndpoints_app (first second : Table PathItem.t)
    (schemas : Table Schema) :
  extractEndpoints (OpenAPISpec.make (first ++ second)%list schemas)
  = (extractEndpoints (OpenAPISpec.make first schemas)
       ++ extractEndpoints (OpenAPISpec.make second schemas))%list.
Proof.
  rewrite !extractEndpoints_flat. cbn [OpenAPISpec.paths].
  apply flat_map_app.
Qed.

Lemma set_fresh {T} key (v : T) (r : Table T) :
  ~ In key (keys r) -> set key v r = (r ++ [(key, v)])%list.
Proof.
  induction r as [|[k w] r IH]; simpl; intros N; [reflexivity|].
  destruct (String.eqb_spec k key) as [->|_]; [exfalso; apply N; auto|].
  rewrite IH by (intros C; apply N; auto). reflexivity.
Qed.

Lemma copy_table {T} (r acc : Table T) :
  NoDup (keys acc ++ keys r) ->
  fold_left (fun acc kv => set (fst kv) (snd kv) acc) r acc = (acc ++ r)%list.
Proof.
  revert acc. induction r as [|[k v] r IH]; intros acc N; simpl.
  - rewrite app_nil_r. reflexivity.
  - simpl in N. rewrite set_fresh.
    + rewrite IH.
      * rewrite <- app_assoc. reflexivity.
      * unfold keys in *. rewrite map_app, <- app_assoc. exact N.
    + apply NoDup_remove_2 in N. intros C. apply N, in_or_app. auto.
Qed.

(** X10.  A descriptor carries the summary, the description, the request
    body and the tags of its operation as they are, and its response
    table is the response table of the operation, entry by entry and in
    the same order (the status codes of a table being distinct). *)
Theorem extractEndpoints_passes_through (spec : OpenAPISpec.t)
    (e : EndpointInfo.t) :
  In e (extractEndpoints spec) ->
  exists pathItem method operation,
    In (EndpointInfo.path e, pathItem) spec.(OpenAPISpec.paths)
    /\ get method pathItem.(PathItem.operations) = Some operation
    /\ EndpointInfo.method e = Str.toUpperCase method
    /\ EndpointInfo.summary e = operation.(Operation.summary)
    /\ EndpointInfo.description e = operation.(Operation.description)
    /\ EndpointInfo.requestBody e = operation.(Operation.requestBody)
    /\ EndpointInfo.tags e = operation.(Operation.tags)
    /\ (NoDup (keys operation.(Operation.responses)) ->
        EndpointInfo.responses e = operation.(Operation.responses)).
Proof.
  intros H.
  destruct (descriptor_origin spec e H) as (item & m & op & Hin & _ & G & E).
  exists item, m, op. unfold visitMethod in E. rewrite G in E.
  injection E as <-. simpl. repeat (split; [solve [auto]|]).
  intros N. apply (copy_table (Operation.responses op) []). exact N.
Qed.

(** X10 on an operation with two responses. *)
Lemma extractEndpoints_passes_through_witness :
  exists e,
    extractEndpoints
      (OpenAPISpec.make
         [("/pets",
           PathItem.make
             [("get",
               Operation.make None (Some "List") None None None
                 [("200", Inline Sample.notFound); ("404", Ref "#/r/Missing")]
                 (Some ["pets"]))]
             None)] [])
    = [e]
    /\ EndpointInfo.summary e = Some "List"
    /\ EndpointInfo.tags e = Some ["pets"]
    /\ EndpointInfo.responses e
       = [("200", Inline Sample.notFound); ("404", Ref "#/r/Missing")].
Proof.
  eexists. split; [reflexivity|].
  match goal with
  | |- EndpointInfo.summary ?e = _ /\ _ =>
      destruct (extractEndpoints_passes_through
                  (OpenAPISpec.make
                     [("/pets",
                       PathItem.make
                         [("get",
                           Operation.make None (Some "List") None None None
                             [("200", Inline Sample.notFound);
                              ("404", Ref "#/r/Missing")]
                             (Some ["pets"]))]
                         None)] [])
                  e (or_introl eq_refl))
        as (item & m & op & Hin & G & _ & Hs & _ & _ & Ht & Hr)
  end.
  destruct Hin as [Hin | []]. injection Hin as <-.
  cbn [PathItem.operations get] in G.
  destruct (String.eqb "get" m); [|discriminate].
  injection G as <-.
  split; [exact Hs|]. split; [exact Ht|].
  apply Hr. repeat constructor; simpl; intuition discriminate.
Defined.

(* ===================================================================== *)
(** ** The schema of a content table *)
(* ===================================================================== *)

Lemma In_values {T} (v : T) (r : Table T) :
  In v (values r) -> exists key, In (key, v) r.
Proof.
  unfold values. intros H. apply in_map_iff in H.
  destruct H as ([k w] & E & H). simpl in E. subst. exists k. exact H.
Qed.

(** X11.  [getSchemaFromContent] only returns a schema that an entry of
    the table carries, and the schema of the [application/json] entry,
    when there is one, wins over all others. *)
Theorem getSchemaFromContent_sound (content : Content) :
  (forall s,
     getSchemaFromContent (Some content) = Some s ->
     exists key media,
       In (key, Some media) content /\ media.(Media.schema) = Some s)
  /\ (forall media s,
        get "application/json" content = Some (Some media) ->
        media.(Media.schema) = Some s ->
        getSchemaFromContent (Some content) = Some s).
Proof.
  split.
  - intros s. unfold getSchemaFromContent.
    assert (F : match find (fun item : option Media.t =>
                              match item with Some _ => true | None => false end)
                           (values content) with
                | Some (Some firstContent) => firstContent.(Media.schema)
                | _ => None
                end = Some s ->
                exists key media,
                  In (key, Some media) content /\ media.(Media.schema) = Some s).
    { destruct (find _ (values content)) as [[m|]|] eqn:Fd; try discriminate.
      intros E. apply find_some in Fd. destruct Fd as [Hin _].
      destruct (In_values _ _ Hin) as [key Hk]. eauto. }
    destruct (get "application/json" content) as [[[[sch|]]|]|] eqn:G;
      try exact F.
    intros E. injection E as ->. apply get_In in G. eauto.
  - intros [sch] s G E. simpl in E. subst sch.
    unfold getSchemaFromContent. rewrite G. reflexivity.
Qed.

(** X11 on a table whose JSON entry comes second. *)
Lemma getSchemaFromContent_sound_witness :
  getSchemaFromContent
    (Some [("text/plain", Some (Media.make (Some Sample.stringSchema)));
           ("application/json", Some (Media.make (Some Sample.integerSchema)))])
  = Some Sample.integerSchema.
Proof.
  apply (proj2 (getSchemaFromContent_sound
                  [("text/plain", Some (Media.make (Some Sample.stringSchema)));
                   ("application/json",
                    Some (Media.make (Some Sample.integerSchema)))])
           (Media.make (Some Sample.integerSchema))); reflexivity.
Defined.

(* ===================================================================== *)
(** ** The parameter interfaces *)
(* ===================================================================== *)





Lemma mapM_Forall2_ext {A A' B} (f : A -> result B) (g : A' -> result B)
    (l : list A) (l' : list A') :
  Forall2 (fun x y => f x = g y) l l' -> mapM f l = mapM g l'.
Proof.
  induction 1 as [|x y l l' E _ IH]; [reflexivity|].
  simpl. rewrite E, IH. reflexivity.
Qed.

Lemma path_lines_same (pathParams pathParams' : list Param.t) :
  Forall2 sameNameAndSchema pathParams pathParams' ->
  mapM (fun p : Param.t =>
          type <- schemaToType (argOf p.(Param.schema)) 0 ;;
          Ok ("  " ++ p.(Param.name) ++ ": " ++ type ++ ";")) pathParams
  = mapM (fun p : Param.t =>
            type <- schemaToType (argOf p.(Param.schema)) 0 ;;
            Ok ("  " ++ p.(Param.name) ++ ": " ++ type ++ ";")) pathParams'.
Proof.
  intros F. apply mapM_Forall2_ext.
  eapply Forall2_impl; [|exact F]. intros p q [En Es]. cbv beta.
  rewrite En, Es. reflexivity.
Qed.

(** X13.  Of a path parameter only the name and the schema are read: the
    [required] flag does not show in the path interface, where every
    field is mandatory. *)
Theorem generateParamsInterface_path_required_unread
    (pathParams pathParams' queryParams : list Param.t)
    (endpointName : string) :
  Forall2 sameNameAndSchema pathParams pathParams' ->
  generateParamsInterface pathParams queryParams endpointName
  = generateParamsInterface pathParams' queryParams endpointName.
Proof.
  intros F. unfold generateParamsInterface.
  rewrite (Forall2_length F), (path_lines_same _ _ F). reflexivity.
Qed.

(** X13 on a path parameter declared optional. *)
Lemma generateParamsInterface_path_required_unread_witness :
  generateParamsInterface
    [Param.make "id" "path" None (Some false) (Some Sample.integerSchema)]
    [] "getPet"
  = generateParamsInterface
      [Param.make "id" "path" None (Some true) (Some Sample.integerSchema)]
      [] "getPet".
Proof.
  apply generateParamsInterface_path_required_unread.
  repeat constructor.
Defined.

(** X14.  [generateParamsInterface] returns the empty text exactly when
    there is neither a path nor a query parameter. *)
Theorem generateParamsInterface_empty_iff
    (pathParams queryParams : list Param.t) (endpointName : string) :
  generateParamsInterface pathParams queryParams endpointName = Ok ""
  <-> pathParams = [] /\ queryParams = [].
Proof.
  split.
  - unfold generateParamsInterface.
    destruct pathParams as [|p pathParams].
    + destruct queryParams as [|q queryParams]; [auto|].
      change (Nat.ltb 0 (length (q :: queryParams))) with true.
      change (Nat.ltb 0 (@length Param.t [])) with false. cbv iota zeta.
      cbn [bind].
      destruct (mapM _ (q :: queryParams)); cbn [bind app Str.join String.concat];
        discriminate.
    + change (Nat.ltb 0 (length (p :: pathParams))) with true. cbv iota zeta.
      destruct (mapM _ (p :: pathParams)); cbn [bind app]; [|discriminate].
      destruct queryParams as [|q queryParams].
      * change (Nat.ltb 0 (@length Param.t [])) with false. cbv iota.
        cbn [bind Str.join String.concat]. discriminate.
      * change (Nat.ltb 0 (length (q :: queryParams))) with true. cbv iota.
        destruct (mapM _ (q :: queryParams));
          cbn [bind app Str.join String.concat]; discriminate.
  - intros [-> ->]. reflexivity.
Qed.

(* ===================================================================== *)
(** ** The request body declaration *)
(* ===================================================================== *)

Lemma mapM_Ok_Forall2 {A B} (f : A -> result B) (l : list A) (ys : list B) :
  mapM f l = Ok ys -> Forall2 (fun x y => f x = Ok y) l ys.
Proof.
  revert ys; induction l as [|x l IH]; simpl; intros ys E.
  - injection E as <-. constructor.
  - destruct (f x) as [y|e] eqn:Hx; simpl in E; [|discriminate].
    destruct (mapM f l) as [zs|e] eqn:Hl; simpl in E; [|discriminate].
    injection E as <-. constructor; [exact Hx | apply IH; reflexivity].
Qed.

Lemma includesChar_join c sep x l :
  In x l -> includesChar c x = true -> includesChar c (Str.join sep l) = true.
Proof.
  unfold Str.join. intros H X. induction l as [|y l IH]; [contradiction|].
  destruct l as [|z l].
  - destruct H as [-> | []]. exact X.
  - change (String.concat sep (y :: z :: l))
      with (y ++ sep ++ String.concat sep (z :: l)).
    rewrite !includesChar_app.
    destruct H as [-> | H]; [rewrite X; reflexivity|].
    rewrite (IH H), !orb_true_r. reflexivity.
Qed.

Lemma forallb_false {A} (f : A -> bool) l :
  forallb f l = false -> exists x, In x l /\ f x = false.
Proof.
  induction l as [|x l IH]; simpl; [discriminate|].
  destruct (f x) eqn:F; simpl.
  - intros H. destruct (IH H) as (y & Hy & Fy). eauto.
  - intros _. eauto.
Qed.

Lemma Forall2_In_l {A B} (R : A -> B -> Prop) l l' x :
  Forall2 R l l' -> In x l -> exists y, In y l' /\ R x y.
Proof.
  induction 1 as [|a b l l' Hab _ IH]; [contradiction|].
  intros [<- | H]; [exists b; simpl; auto|].
  destruct (IH H) as (y & Hy & Ry). exists y; simpl; auto.
Qed.

(** A projection that prints an inline object type holds a line feed. *)
Lemma record_has_newline (s : Schema) :
  forall i t,
    recordFree s = false ->
    schemaToType (Object s) i = Ok t ->
    includesChar (ascii_of_nat 10) t = true.
Proof.
  induction s as [ref | n Hit Hprops Hap Hall Hone Hany] using Schema_induction;
    intros i t R H; [discriminate|].
  rewrite schemaToType_unfold in H. unfold schemaToTypeStep in H.
  cbn [falsy isRef bind] in H. cbn [recordFree] in R.
  assert (L : forall (l : list Schema) types,
             Forall (fun s => forall i t, recordFree s = false ->
                                          schemaToType (Object s) i = Ok t ->
                                          includesChar (ascii_of_nat 10) t = true) l ->
             forallb recordFree l = false ->
             mapM (fun s => recur (fun s j => schemaToType (Object s) j)
                                  (Object s) (i + 1)) l = Ok types ->
             forall sep, includesChar (ascii_of_nat 10) (Str.join sep types) = true).
  { intros l types F Rl M sep. apply forallb_false in Rl.
    destruct Rl as (x & Hx & Rx). apply mapM_Ok_Forall2 in M.
    destruct (Forall2_In_l _ _ _ x M Hx) as (y & Hy & E).
    rewrite recur_object in E. rewrite Forall_forall in F.
    apply includesChar_join with (x := y); [exact Hy|].
    apply (F x Hx (i + 1) y Rx E). }
  destruct (switchType (type n)); try discriminate.
  - destruct (items n) as [it|]; [|discriminate].
    rewrite recur_object in H.
    destruct (schemaToType (Object it) i) as [a|] eqn:E; [|discriminate].
    injection H as <-. simpl. rewrite includesChar_app, (Hit i a R E).
    reflexivity.
  - destruct (properties n) as [props|].
    + destruct (mapM _ props); [|discriminate]. injection H as <-. reflexivity.
    + destruct (additionalProperties n) as [[[|]|a]|]; try discriminate.
      rewrite recur_object in H.
      destruct (schemaToType (Object a) i) as [v|] eqn:E; [|discriminate].
      injection H as <-. simpl. rewrite includesChar_app, (Hap i v R E).
      reflexivity.
  - destruct (allOf n) as [l|].
    + destruct (mapM _ l) as [types|] eqn:M; [|discriminate].
      injection H as <-. apply (L l types Hall R M).
    + destruct (oneOf n) as [l|]; [|destruct (anyOf n) as [l|]];
        try discriminate;
        (destruct (mapM _ l) as [types|] eqn:M; [|discriminate]);
        injection H as <-; simpl; rewrite includesChar_app;
        [rewrite (L l types Hone R M) | rewrite (L l types Hany R M)];
        reflexivity.
Qed.

(** X15.  When the schema of a request body projects to a type that
    prints an inline object type anywhere, a record as well as an array
    of records, [generateRequestBodyType] declares an [interface] whose
    body is that type. *)
Theorem generateRequestBodyType_interface
    (requestBody : option (OrRef RequestBody.t)) (endpointName : string)
    (schema : Schema) (t : string) :
  bodySchema requestBody = Some schema ->
  recordFree schema = false ->
  schemaToType (Object schema) 0 = Ok t ->
  generateRequestBodyType requestBody endpointName
  = Ok ("export interface " ++ endpointName ++ "RequestBody " ++ t ++ Str.nl).
Proof.
  intros B R H. destruct requestBody as [[ref | r]|]; try discriminate.
  unfold bodySchema in B. unfold generateRequestBodyType.
  rewrite B, H. cbn [bind]. rewrite (record_has_newline schema 0 t R H).
  reflexivity.
Qed.

(** X15 on a body that is an array of persons. *)
Lemma generateRequestBodyType_interface_witness :
  generateRequestBodyType
    (Some (Inline (RequestBody.make None None
                     (Some [("application/json",
                             Some (Media.make
                                     (Some (SNode (mkSchema (Some "array") None
                                                     None
                                                     (Some (SNode Sample.person))
                                                     None None None None None
                                                     None)))))]))))
    "createUsers"
  = Ok ("export interface " ++ "createUsers" ++ "RequestBody "
          ++ ("Array<{" ++ Str.nl ++ "  name: string;" ++ Str.nl
                ++ "  age?: number;" ++ Str.nl ++ "}>")
          ++ Str.nl).
Proof.
  apply (generateRequestBodyType_interface _ "createUsers"
           (SNode (mkSchema (Some "array") None None (Some (SNode Sample.person))
                     None None None None None None))
           ("Array<{" ++ Str.nl ++ "  name: string;" ++ Str.nl
              ++ "  age?: number;" ++ Str.nl ++ "}>")); reflexivity.
Defined.

(** X16.  [generateRequestBodyType] returns the empty text exactly when
    it finds no schema: no body, a body given by reference, a body
    without content, or a content whose chosen entry has no schema. *)
Theorem generateRequestBodyType_empty_iff
    (requestBody : option (OrRef RequestBody.t)) (endpointName : string) :
  generateRequestBodyType requestBody endpointName = Ok ""
  <-> bodySchema requestBody = None.
Proof.
  destruct requestBody as [[ref | r]|]; try (split; reflexivity).
  unfold generateRequestBodyType, bodySchema.
  destruct (getSchemaFromContent (RequestBody.content r)) as [schema|];
    [|split; reflexivity].
  split; [|discriminate].
  destruct (schemaToType (Object schema) 0) as [t|]; cbn [bind];
    [|discriminate].
  destruct (includesChar (ascii_of_nat 10) t); discriminate.
Qed.

(* ===================================================================== *)
(** ** The response type of a hook *)
(* ===================================================================== *)

Lemma find_all_false {A} (f : A -> bool) l :
  (forall x, In x l -> f x = false) -> find f l = None.
Proof.
  induction l as [|x l IH]; intros H; simpl; [reflexivity|].
  rewrite (H x (or_introl eq_refl)). apply IH. intros y Hy. apply H.
  right. exact Hy.
Qed.

Lemma get_key {T} key (r : Table T) v : get key r = Some v -> In key (keys r).
Proof.
  intros G. apply get_In in G. unfold keys.
  apply in_map_iff. exists (key, v). auto.
Qed.

(** X17.  When no status code of an endpoint begins with [2], the hook
    falls back to the status [200], finds no response under it, and
    types the data as [any]. *)
Theorem responseType_without_success (endpoint : EndpointInfo.t) :
  (forall status,
     In status (keys endpoint.(EndpointInfo.responses)) ->
     Str.startsWith "2"%char status = false) ->
  successStatus endpoint.(EndpointInfo.responses) = "200"
  /\ responseType endpoint = Ok "any".
Proof.
  intros N.
  assert (S : successStatus (EndpointInfo.responses endpoint) = "200").
  { unfold successStatus. rewrite (find_all_false _ _ N). reflexivity. }
  split; [exact S|]. unfold responseType. cbv zeta. rewrite S.
  destruct (get "200" (EndpointInfo.responses endpoint)) as [resp|] eqn:G;
    [|reflexivity].
  apply get_key in G. specialize (N _ G). discriminate N.
Qed.

(** X17 on an endpoint that only answers [404]. *)
Lemma responseType_without_success_witness :
  responseType
    (EndpointInfo.make "/pets" "GET" "getPets" None None [] [] None
       [("404", Inline Sample.notFound)] None)
  = Ok "any".
Proof.
  apply (responseType_without_success
           (EndpointInfo.make "/pets" "GET" "getPets" None None [] [] None
              [("404", Inline Sample.notFound)] None)).
  intros status [<- | []]. reflexivity.
Defined.

(** X18.  The status a hook takes for success is the first key of the
    response table that begins with [2], in the order of the table. *)
Theorem successStatus_first_match (responses : Table (OrRef Response.t))
    (before after : list string) (status : string) :
  keys responses = (before ++ status :: after)%list ->
  (forall s, In s before -> Str.startsWith "2"%char s = false) ->
  Str.startsWith "2"%char status = true ->
  successStatus responses = status.
Proof.
  intros K N Y. unfold successStatus. rewrite K. clear K.
  induction before as [|b before IH]; simpl.
  - rewrite Y. destruct status; [discriminate | reflexivity].
  - rewrite (N b (or_introl eq_refl)). apply IH. intros s Hs. apply N.
    right. exact Hs.
Qed.

(** X18 on the statuses 100, 204, 404. *)
Lemma successStatus_first_match_witness :
  successStatus
    [("100", Ref "#/r/A"); ("204", Ref "#/r/B"); ("404", Ref "#/r/C")]
  = "204".
Proof.
  apply (successStatus_first_match
           [("100", Ref "#/r/A"); ("204", Ref "#/r/B"); ("404", Ref "#/r/C")]
           ["100"] ["404"] "204").
  - reflexivity.
  - intros s [<- | []]. reflexivity.
  - reflexivity.
Defined.
